(** * cURL-to-code converter: tokenizer, command parser and code generators

    A shallow embedding of [tokenizeCurl], [parseCurl] and the five
    [generate*] functions of the converter component, followed by the
    properties of the written specification that concern them.

    Modelling conventions.
    - A JavaScript string is a [string] and a character its code, below
      256.  Whitespace ([trim], [trimStart], [\s]) is the JavaScript class
      on these codes, the no-break space included.  [toLowerCase] and
      [toUpperCase] map the letters of these codes, the accented ones
      included; the capital of the sharp s is [SS], and the micro sign and
      the y with diaeresis, whose capitals have a code above 255, are
      kept.  [Buffer.from] encodes a string in UTF-8.
    - [string | null] is [option string]; the truthiness test of such a
      value is [truthy] (both [null] and the empty string are falsy).
    - The [headers] object is an insertion-ordered list of own properties,
      see [obj_set] and [Object_entries].
    - [tokens[++i]] is an [option string], [None] when the cursor has run
      past the last token.
    - [JSON.parse] followed by [JSON.stringify] with an indentation, and the
      [URL] constructor, are parameters of the generators; a thrown
      exception is [None].
    - Every generator builds [lines] and returns [lines.join("\n")]; the
      list is kept as [generate*_lines]. *)

From Stdlib Require Import String Ascii List Bool Arith NArith Lia Permutation.
Import ListNotations.
Open Scope list_scope.
Open Scope string_scope.

(** ** Characters *)

Definition ch_tab : ascii := "009"%char.
Definition ch_lf : ascii := "010"%char.
Definition ch_vt : ascii := "011"%char.
Definition ch_ff : ascii := "012"%char.
Definition ch_cr : ascii := "013"%char.
Definition ch_sp : ascii := " "%char.
Definition ch_dq : ascii := "034"%char.
Definition ch_sq : ascii := "'"%char.
Definition ch_bs : ascii := "\"%char.
Definition ch_nbsp : ascii := "160"%char.

(** One-character strings used when output text is assembled. *)
Definition dq : string := String ch_dq EmptyString.
Definition lf : string := String ch_lf EmptyString.
Definition tab : string := String ch_tab EmptyString.

(** The class [\s] of a regular expression, which is also what [trim] and
    [trimStart] strip, on the characters below 256: tab, line feed,
    vertical tab, form feed, carriage return, space and the no-break space
    U+00A0. *)
Definition is_space (c : ascii) : bool :=
  Ascii.eqb c ch_sp || Ascii.eqb c ch_tab || Ascii.eqb c ch_lf
  || Ascii.eqb c ch_vt || Ascii.eqb c ch_ff || Ascii.eqb c ch_cr
  || Ascii.eqb c ch_nbsp.

(** The capitals are the codes 65 to 90 and 192 to 222 without the
    multiplication sign 215; the small letters are 32 above them. *)
Definition lower_char (c : ascii) : ascii :=
  let n := nat_of_ascii c in
  if ((65 <=? n) && (n <=? 90)
      || (192 <=? n) && (n <=? 222) && negb (n =? 215))%nat
  then ascii_of_nat (n + 32) else c.

Definition upper_char (c : ascii) : ascii :=
  let n := nat_of_ascii c in
  if ((97 <=? n) && (n <=? 122)
      || (224 <=? n) && (n <=? 254) && negb (n =? 247))%nat
  then ascii_of_nat (n - 32) else c.

Definition ch_sharp_s : ascii := "223"%char.

(** The upper case of one character: two characters for the sharp s. *)
Definition upper_str (c : ascii) : string :=
  if Ascii.eqb c ch_sharp_s then "SS"%string
  else String (upper_char c) EmptyString.

(** ** String primitives *)

Fixpoint smap (f : ascii -> ascii) (s : string) : string :=
  match s with
  | EmptyString => EmptyString
  | String c r => String (f c) (smap f r)
  end.

Definition toLowerCase : string -> string := smap lower_char.

Fixpoint toUpperCase (s : string) : string :=
  match s with
  | EmptyString => EmptyString
  | String c r => (upper_str c ++ toUpperCase r)%string
  end.

Fixpoint startsWith (p s : string) : bool :=
  match p, s with
  | EmptyString, _ => true
  | String a p', String b s' => Ascii.eqb a b && startsWith p' s'
  | String _ _, EmptyString => false
  end.

Fixpoint includes (p s : string) : bool :=
  startsWith p s ||
  match s with
  | EmptyString => false
  | String _ r => includes p r
  end.

Fixpoint trimStart (s : string) : string :=
  match s with
  | EmptyString => EmptyString
  | String c r => if is_space c then trimStart r else s
  end.

Fixpoint trimEnd (s : string) : string :=
  match s with
  | EmptyString => EmptyString
  | String c r =>
      match trimEnd r with
      | EmptyString => if is_space c then EmptyString else String c EmptyString
      | r' => String c r'
      end
  end.

Definition trim (s : string) : string := trimEnd (trimStart s).

(** [s.indexOf(":")], with [None] for [-1]. *)
Fixpoint indexOf (c : ascii) (s : string) : option nat :=
  match s with
  | EmptyString => None
  | String a r =>
      if Ascii.eqb a c then Some 0
      else match indexOf c r with
           | Some n => Some (S n)
           | None => None
           end
  end.

(** [s.slice(0, n)] and [s.slice(n)] for [0 <= n]. *)
Fixpoint slice_to (n : nat) (s : string) : string :=
  match n, s with
  | S k, String c r => String c (slice_to k r)
  | _, _ => EmptyString
  end.

Fixpoint slice_from (n : nat) (s : string) : string :=
  match n, s with
  | S k, String _ r => slice_from k r
  | _, _ => s
  end.

Fixpoint join (sep : string) (l : list string) : string :=
  match l with
  | [] => EmptyString
  | [x] => x
  | x :: r => x ++ sep ++ join sep r
  end.

(** ** Tokenizer *)

(** [.replace(/\\\n/g, " ")] *)
Fixpoint replace_bs_lf (s : string) : string :=
  match s with
  | EmptyString => EmptyString
  | String c r =>
      match r with
      | String d r' =>
          if Ascii.eqb c ch_bs && Ascii.eqb d ch_lf
          then String ch_sp (replace_bs_lf r')
          else String c (replace_bs_lf r)
      | EmptyString => String c EmptyString
      end
  end.

(** [.replace(/\\\r\n/g, " ")] *)
Fixpoint replace_bs_crlf (s : string) : string :=
  match s with
  | EmptyString => EmptyString
  | String c r =>
      match r with
      | String d (String e r') =>
          if Ascii.eqb c ch_bs && Ascii.eqb d ch_cr && Ascii.eqb e ch_lf
          then String ch_sp (replace_bs_crlf r')
          else String c (replace_bs_crlf r)
      | _ => String c (replace_bs_crlf r)
      end
  end.

(** The three scanning runs of the outer [while] loop, and the place between
    two tokens where whitespace is skipped. *)
Inductive mode : Type := Between | Unquoted | Single | Double.

Definition push_char (tok : string) (c : ascii) : string :=
  tok ++ String c EmptyString.

(** The character a backslash escape inside double quotes stands for. *)
Definition unescape (c : ascii) : ascii :=
  if Ascii.eqb c "n" then ch_lf
  else if Ascii.eqb c "t" then ch_tab
  else if Ascii.eqb c "r" then ch_cr
  else c.

(** The scan of [tokenizeCurl] from position [i], where [s] is what remains
    from [i] on, [m] the run the cursor is in and [tok] the token collected
    so far; returns the tokens pushed from here on. *)
Fixpoint scan (m : mode) (tok : string) (s : string) {struct s} : list string :=
  match s with
  | EmptyString =>
      match m with
      | Between => []
      | _ => [tok]
      end
  | String c r =>
      match m with
      | Between =>
          if is_space c then scan Between EmptyString r
          else if Ascii.eqb c ch_sq then scan Single EmptyString r
          else if Ascii.eqb c ch_dq then scan Double EmptyString r
          else scan Unquoted (String c EmptyString) r
      | Unquoted =>
          if is_space c then tok :: scan Between EmptyString r
          else scan Unquoted (push_char tok c) r
      | Single =>
          if Ascii.eqb c ch_sq then tok :: scan Between EmptyString r
          else scan Single (push_char tok c) r
      | Double =>
          if Ascii.eqb c ch_dq then tok :: scan Between EmptyString r
          else if Ascii.eqb c ch_bs then
            match r with
            | String e r' => scan Double (push_char tok (unescape e)) r'
            | EmptyString => scan Double (push_char tok c) r
            end
          else scan Double (push_char tok c) r
      end
  end.

Definition tokenizeCurl (input : string) : list string :=
  scan Between EmptyString (replace_bs_crlf (replace_bs_lf (trim input))).

(** ** The headers object

    [headers] is created by the object literal [{}] and written with
    [headers[key] = val].  Its own properties are kept in insertion order; a
    write to an existing name keeps the name's place. *)

Definition object : Type := list (string * string).

Fixpoint obj_get (k : string) (o : object) : option string :=
  match o with
  | [] => None
  | (k', v) :: r => if k' =? k then Some v else obj_get k r
  end.

Fixpoint obj_put (k v : string) (o : object) : object :=
  match o with
  | [] => [(k, v)]
  | (k', v') :: r =>
      if k' =? k then (k', v) :: r else (k', v') :: obj_put k v r
  end.

(** The one name of [Object.prototype] that is an accessor with a setter. *)
Definition proto_name : string := "__proto__".

(** [headers[k] = v].  The object inherits from [Object.prototype], so the
    name [__proto__] reaches the inherited setter, which ignores a value that
    is neither an object nor [null]: a string written under that name creates
    no own property.  Every other name creates or updates an own property. *)
Definition obj_set (k v : string) (o : object) : object :=
  if k =? proto_name then o else obj_put k v o.

(** The value of a canonical array-index name ([0] to [2^32 - 2], no leading
    zero), which [Object.entries] lists before all other names. *)
Definition digit_val (c : ascii) : option N :=
  let n := N_of_ascii c in
  if ((48 <=? n) && (n <=? 57))%N then Some (n - 48)%N else None.

Fixpoint parse_digits (acc : N) (s : string) : option N :=
  match s with
  | EmptyString => Some acc
  | String c r =>
      match digit_val c with
      | Some d => parse_digits (10 * acc + d)%N r
      | None => None
      end
  end.

Definition array_index (k : string) : option N :=
  match k with
  | EmptyString => None
  | String c r =>
      if Ascii.eqb c "0" && negb (r =? EmptyString) then None
      else match parse_digits 0%N k with
           | Some n => if (n <? 4294967295)%N then Some n else None
           | None => None
           end
  end.

Fixpoint insert_indexed (n : N) (e : string * string)
    (l : list (N * (string * string))) : list (N * (string * string)) :=
  match l with
  | [] => [(n, e)]
  | (m, e') :: r =>
      if (n <? m)%N then (n, e) :: l else (m, e') :: insert_indexed n e r
  end.

Fixpoint indexed_entries (o : object) : list (N * (string * string)) :=
  match o with
  | [] => []
  | (k, v) :: r =>
      match array_index k with
      | Some n => insert_indexed n (k, v) (indexed_entries r)
      | None => indexed_entries r
      end
  end.

Definition named_entries (o : object) : list (string * string) :=
  filter (fun e => match array_index (fst e) with Some _ => false | None => true end) o.

(** [Object.entries(o)]: array-index names in ascending order, then the
    other names in insertion order. *)
Definition Object_entries (o : object) : list (string * string) :=
  map snd (indexed_entries o) ++ named_entries o.

(** ** Command parser *)

Record auth_t : Type := mkAuth { user : string; password : string }.

Record ParsedCurl : Type := mkParsed {
  url : string;
  method : string;
  headers : object;
  body : option string;
  auth : option auth_t;
  isFormData : bool;
  isJson : bool
}.

(** The local variables of [parseCurl] that the loop updates. *)
Record pstate : Type := mkState {
  st_url : string;
  st_method : string;
  st_headers : object;
  st_body : option string;
  st_auth : option auth_t
}.

Definition init_state : pstate :=
  mkState EmptyString EmptyString [] None None.

Definition set_url (u : string) (st : pstate) : pstate :=
  mkState u (st_method st) (st_headers st) (st_body st) (st_auth st).
Definition set_method (m : string) (st : pstate) : pstate :=
  mkState (st_url st) m (st_headers st) (st_body st) (st_auth st).
Definition set_header (k v : string) (st : pstate) : pstate :=
  mkState (st_url st) (st_method st) (obj_set k v (st_headers st))
          (st_body st) (st_auth st).
Definition set_body (b : string) (st : pstate) : pstate :=
  mkState (st_url st) (st_method st) (st_headers st) (Some b) (st_auth st).
Definition set_auth (a : auth_t) (st : pstate) : pstate :=
  mkState (st_url st) (st_method st) (st_headers st) (st_body st) (Some a).

(** Truthiness of a [string | null] (or [string | undefined]) value. *)
Definition truthy (b : option string) : bool :=
  match b with
  | Some s => negb (s =? EmptyString)
  | None => false
  end.

(** [x ?? ""] *)
Definition or_empty (x : option string) : string :=
  match x with
  | Some s => s
  | None => EmptyString
  end.

Definition is_one_of (tok : string) (l : list string) : bool :=
  existsb (String.eqb tok) l.

Definition method_flags : list string := ["-X"; "--request"].
Definition header_flags : list string := ["-H"; "--header"].
Definition data_flags : list string :=
  ["-d"; "--data"; "--data-raw"; "--data-binary"; "--data-ascii"].
Definition user_flags : list string := ["-u"; "--user"].
Definition json_flags : list string := ["--json"].
Definition form_flags : list string := ["--form"; "-F"].
Definition ignored_flags : list string :=
  ["--compressed"; "-L"; "--location"; "-k"; "--insecure"; "-s"; "--silent";
   "-v"; "--verbose"; "-i"; "--include"].
Definition cookie_flags : list string := ["-b"; "--cookie"].
Definition agent_flags : list string := ["-A"; "--user-agent"].
Definition referer_flags : list string := ["-e"; "--referer"].

(** The branches of the loop body that advance the cursor with [++i]
    (or [i++] in the second arm of the form branch). *)
Definition consumes_next (tok : string) : bool :=
  is_one_of tok method_flags || is_one_of tok header_flags
  || is_one_of tok data_flags || is_one_of tok user_flags
  || is_one_of tok json_flags || is_one_of tok form_flags
  || is_one_of tok cookie_flags || is_one_of tok agent_flags
  || is_one_of tok referer_flags.

(** One pass through the loop body for the token [tok]; [arg] is
    [tokens[++i]] in the branches that read it. *)
Definition handle (tok : string) (arg : option string) (st : pstate) : pstate :=
  if is_one_of tok method_flags then
    set_method (match arg with
                | Some a => toUpperCase a
                | None => EmptyString
                end) st
  else if is_one_of tok header_flags then
    let hdr := or_empty arg in
    match indexOf ":" hdr with
    | Some colon =>
        let key := trim (slice_to colon hdr) in
        let val := trim (slice_from (colon + 1) hdr) in
        set_header key val st
    | None => st
    end
  else if is_one_of tok data_flags then
    set_body (or_empty arg) st
  else if is_one_of tok user_flags then
    let creds := or_empty arg in
    match indexOf ":" creds with
    | Some idx =>
        set_auth (mkAuth (slice_to idx creds) (slice_from (idx + 1) creds)) st
    | None => set_auth (mkAuth creds EmptyString) st
    end
  else if is_one_of tok json_flags then
    set_header "Accept" "application/json"
      (set_header "Content-Type" "application/json"
         (set_body (or_empty arg) st))
  else if is_one_of tok form_flags then
    if negb (truthy (st_body st)) then set_body (or_empty arg) st else st
  else if is_one_of tok ignored_flags then st
  else if is_one_of tok cookie_flags then
    set_header "Cookie" (or_empty arg) st
  else if is_one_of tok agent_flags then
    set_header "User-Agent" (or_empty arg) st
  else if is_one_of tok referer_flags then
    set_header "Referer" (or_empty arg) st
  else if negb (startsWith "-" tok) then
    if negb (truthy (Some (st_url st))) then set_url tok st else st
  else st.

(** The [for] loop of [parseCurl] over the tokens after the first. *)
Fixpoint scanArgs (st : pstate) (toks : list string) {struct toks} : pstate :=
  match toks with
  | [] => st
  | tok :: rest =>
      if consumes_next tok then
        match rest with
        | [] => handle tok None st
        | a :: rest' => scanArgs (handle tok (Some a) st) rest'
        end
      else scanArgs (handle tok None st) rest
  end.

(** [headers["Content-Type"] || headers["content-type"] || ""] *)
Definition contentType (h : object) : string :=
  if truthy (obj_get "Content-Type" h) then or_empty (obj_get "Content-Type" h)
  else if truthy (obj_get "content-type" h) then or_empty (obj_get "content-type" h)
  else EmptyString.

Definition body_opens_with (p : string) (b : option string) : bool :=
  match b with
  | Some s => startsWith p (trimStart s)
  | None => false
  end.

(** The tail of [parseCurl], after the loop. *)
Definition finish (st : pstate) : option ParsedCurl :=
  if negb (truthy (Some (st_url st))) then None
  else
    let m := if negb (truthy (Some (st_method st)))
             then (if truthy (st_body st) then "POST" else "GET")
             else st_method st in
    let ct := contentType (st_headers st) in
    let json := includes "application/json" ct
                || body_opens_with "{" (st_body st)
                || body_opens_with "[" (st_body st) in
    let form := includes "application/x-www-form-urlencoded" ct in
    Some (mkParsed (st_url st) m (st_headers st) (st_body st) (st_auth st)
                   form json).

Definition parseTokens (tokens : list string) : option ParsedCurl :=
  match tokens with
  | [] => None
  | t0 :: rest =>
      if negb (toLowerCase t0 =? "curl") then None
      else finish (scanArgs init_state rest)
  end.

Definition parseCurl (raw : string) : option ParsedCurl :=
  parseTokens (tokenizeCurl raw).

(** ** Helpers of the code generators *)

Fixpoint repeat_string (s : string) (n : nat) : string :=
  match n with
  | O => EmptyString
  | S k => s ++ repeat_string s k
  end.

Definition indent (n : nat) : string := repeat_string "  " n.

Definition hex_digit (n : N) : ascii :=
  match String.get (N.to_nat n) "0123456789abcdef" with
  | Some c => c
  | None => "0"%char
  end.

(** The escape of one character inside a JSON string literal. *)
Definition json_escape (c : ascii) : string :=
  let n := N_of_ascii c in
  if (n =? 8)%N then "\b"
  else if (n =? 9)%N then "\t"
  else if (n =? 10)%N then "\n"
  else if (n =? 12)%N then "\f"
  else if (n =? 13)%N then "\r"
  else if (n =? 34)%N then String ch_bs dq
  else if (n =? 92)%N then "\\"
  else if (n <? 32)%N then
    "\u00" ++ String (hex_digit (n / 16)) (String (hex_digit (n mod 16)) EmptyString)
  else String c EmptyString.

Fixpoint json_escape_all (s : string) : string :=
  match s with
  | EmptyString => EmptyString
  | String c r => json_escape c ++ json_escape_all r
  end.

(** [JSON.stringify(val)] for a string [val]. *)
Definition jsStringify (val : string) : string :=
  dq ++ json_escape_all val ++ dq.

(** [s.split("\n")] *)
Fixpoint split_lines (cur : string) (s : string) : list string :=
  match s with
  | EmptyString => [cur]
  | String c r =>
      if Ascii.eqb c ch_lf then cur :: split_lines EmptyString r
      else split_lines (push_char cur c) r
  end.

(** [s.split("\n").join("\n" + indent(1))] *)
Definition reindent (s : string) : string :=
  join (lf ++ indent 1) (split_lines EmptyString s).

(** [s.replace(/pat/g, rep)] for a literal, non-empty [pat]; [skip] counts the
    characters of a match that are still to be passed over. *)
Fixpoint replace_all_from (pat rep : string) (skip : nat) (s : string) : string :=
  match s with
  | EmptyString => EmptyString
  | String c r =>
      match skip with
      | S k => replace_all_from pat rep k r
      | O =>
          if startsWith pat s
          then rep ++ replace_all_from pat rep (String.length pat - 1) r
          else String c (replace_all_from pat rep 0 r)
      end
  end.

Definition replace_all (pat rep s : string) : string :=
  replace_all_from pat rep 0 s.

(** [s.replace(":", "")]: the first colon only. *)
Fixpoint remove_first_colon (s : string) : string :=
  match s with
  | EmptyString => EmptyString
  | String c r => if Ascii.eqb c ":" then r else String c (remove_first_colon r)
  end.

Definition base64_alphabet : string :=
  "ABCDEFGHIJKLMNOPQRSTUVWXYZabcdefghijklmnopqrstuvwxyz0123456789+/".

Definition b64_char (n : N) : string :=
  match String.get (N.to_nat n) base64_alphabet with
  | Some c => String c EmptyString
  | None => EmptyString
  end.

Definition b64_1 (a : N) : string := b64_char (a / 4)%N.
Definition b64_2 (a b : N) : string := b64_char ((a mod 4) * 16 + b / 16)%N.
Definition b64_3 (b c : N) : string := b64_char ((b mod 16) * 4 + c / 64)%N.
Definition b64_4 (c : N) : string := b64_char (c mod 64)%N.

Fixpoint base64_bytes (l : list N) : string :=
  match l with
  | [] => EmptyString
  | [a] => b64_1 a ++ b64_2 a 0 ++ "=="
  | [a; b] => b64_1 a ++ b64_2 a b ++ b64_3 b 0 ++ "="
  | a :: b :: c :: r =>
      b64_1 a ++ b64_2 a b ++ b64_3 b c ++ b64_4 c ++ base64_bytes r
  end.

(** The UTF-8 bytes of a character: one byte below 128, two from there. *)
Definition utf8_bytes (c : ascii) : list N :=
  let n := N_of_ascii c in
  if (n <? 128)%N then [n] else [192 + n / 64; 128 + n mod 64]%N.

(** [Buffer.from(s).toString("base64")] *)
Definition toBase64 (s : string) : string :=
  base64_bytes (flat_map utf8_bytes (list_ascii_of_string s)).

(** ** Code generators *)

(** Concatenation of blocks of lines, in the order they are pushed. *)
Notation "l1 +++ l2" := (@app _ l1 l2) (at level 65, right associativity).

(** What [new URL(u)] exposes to [generateNodeJs]. *)
Record URL : Type := mkURL {
  protocol : string;
  hostname : string;
  port : string;
  pathname : string;
  search : string
}.

Section Generators.

(** [JSON.stringify(JSON.parse(body), null, n)]: the re-indented text, or
    [None] when [JSON.parse] throws. *)
Variable json_reformat : nat -> string -> option string.

(** [new URL(u)], [None] when the constructor throws. *)
Variable new_URL : string -> option URL.

(** One rendered header entry of the JavaScript targets. *)
Definition js_header_line (e : string * string) : string :=
  indent 2 ++ jsStringify (fst e) ++ ": " ++ jsStringify (snd e) ++ ",".

Definition basic_auth_entry (a : auth_t) : string * string :=
  ("Authorization", "Basic " ++ toBase64 (user a ++ ":" ++ password a)).

Definition auth_entries (a : option auth_t) : list (string * string) :=
  match a with
  | Some c => [basic_auth_entry c]
  | None => []
  end.

Definition fetch_body_lines (p : ParsedCurl) : list string :=
  match body p with
  | Some b =>
      if isJson p then
        match json_reformat 2 b with
        | Some j => [indent 1 ++ "body: JSON.stringify(" ++ reindent j ++ "),"]
        | None => [indent 1 ++ "body: " ++ jsStringify b ++ ","]
        end
      else [indent 1 ++ "body: " ++ jsStringify b ++ ","]
  | None => []
  end.

Definition generateJsFetch_lines (p : ParsedCurl) : list string :=
  let method_opt :=
    if negb (method p =? "GET")
    then [indent 1 ++ "method: " ++ jsStringify (method p) ++ ","]
    else [] in
  let headerEntries := (Object_entries (headers p) +++ auth_entries (auth p)) in
  let header_opt :=
    match headerEntries with
    | [] => []
    | _ => ([indent 1 ++ "headers: {"] +++ map js_header_line headerEntries
            +++ [indent 1 ++ "},"])
    end in
  let options := (method_opt +++ header_opt +++ fetch_body_lines p) in
  (["const response = await fetch(" ++ jsStringify (url p) ++ ", {"]
   +++ options
   +++ ["});"; "const data = await response.json();"; "console.log(data);"]).

Definition generateJsFetch (p : ParsedCurl) : string :=
  join lf (generateJsFetch_lines p).

Definition axios_body_lines (p : ParsedCurl) : list string :=
  match body p with
  | Some b =>
      if isJson p then
        match json_reformat 2 b with
        | Some j => [indent 1 ++ "data: " ++ reindent j ++ ","]
        | None => [indent 1 ++ "data: " ++ jsStringify b ++ ","]
        end
      else [indent 1 ++ "data: " ++ jsStringify b ++ ","]
  | None => []
  end.

Definition generateJsAxios_lines (p : ParsedCurl) : list string :=
  let headerEntries := Object_entries (headers p) in
  let unshifted :=
    match auth p with
    | Some _ => ["// Axios handles basic auth natively:"]
    | None => []
    end in
  let auth_part :=
    match auth p with
    | Some a =>
        [indent 1 ++ "auth: {";
         indent 2 ++ "username: " ++ jsStringify (user a) ++ ",";
         indent 2 ++ "password: " ++ jsStringify (password a) ++ ",";
         indent 1 ++ "},"]
    | None => []
    end in
  let header_part :=
    match headerEntries with
    | [] => []
    | _ => ([indent 1 ++ "headers: {"] +++ map js_header_line headerEntries
            +++ [indent 1 ++ "},"])
    end in
  let configParts :=
    ([indent 1 ++ "method: " ++ jsStringify (toLowerCase (method p)) ++ ",";
      indent 1 ++ "url: " ++ jsStringify (url p) ++ ","]
     +++ auth_part +++ header_part +++ axios_body_lines p) in
  (unshifted
   +++ ["import axios from 'axios';"; EmptyString; "const response = await axios({"]
   +++ configParts
   +++ ["});"; "console.log(response.data);"]).

Definition generateJsAxios (p : ParsedCurl) : string :=
  join lf (generateJsAxios_lines p).

Definition py_header_line (e : string * string) : string :=
  "    " ++ jsStringify (fst e) ++ ": " ++ jsStringify (snd e) ++ ",".

(** The lines and the call argument of the body block of
    [generatePythonRequests]. *)
Definition python_body (p : ParsedCurl) : list string * list string :=
  match body p with
  | Some b =>
      if isJson p then
        match json_reformat 4 b with
        | Some j =>
            let pyJson :=
              replace_all ": false" ": False"
                (replace_all ": true" ": True"
                   (replace_all ": null" ": None" j)) in
            (["payload = " ++ pyJson; EmptyString], ["json=payload"])
        | None =>
            (["payload = " ++ jsStringify b; EmptyString], ["json=payload"])
        end
      else if isFormData p then
        (["data = " ++ jsStringify b; EmptyString], ["data=data"])
      else
        (["data = " ++ jsStringify b; EmptyString], ["data=data"])
  | None => ([], [])
  end.

Definition generatePythonRequests_lines (p : ParsedCurl) : list string :=
  let headerEntries := Object_entries (headers p) in
  let header_lines :=
    match headerEntries with
    | [] => []
    | _ => (["headers = {"] +++ map py_header_line headerEntries
            +++ ["}"; EmptyString])
    end in
  let header_args :=
    match headerEntries with
    | [] => []
    | _ => ["headers=headers"]
    end in
  let auth_args :=
    match auth p with
    | Some a =>
        ["auth=(" ++ jsStringify (user a) ++ ", " ++ jsStringify (password a) ++ ")"]
    | None => []
    end in
  let args := (["url"] +++ header_args +++ auth_args +++ snd (python_body p)) in
  (["import requests"; EmptyString]
   +++ header_lines
   +++ fst (python_body p)
   +++ ["url = " ++ jsStringify (url p); EmptyString;
       "response = requests." ++ toLowerCase (method p)
         ++ "(" ++ join ", " args ++ ")";
       "print(response.json())"]).

Definition generatePythonRequests (p : ParsedCurl) : string :=
  join lf (generatePythonRequests_lines p).

(** [bodyStr] of [generateGo] and [generateNodeJs], for the body [b]. *)
Definition bodyStr (p : ParsedCurl) (b : string) : string :=
  if isJson p then
    match json_reformat 2 b with
    | Some j => j
    | None => b
    end
  else b.

Definition go_header_line (e : string * string) : string :=
  tab ++ "req.Header.Set(" ++ jsStringify (fst e) ++ ", "
      ++ jsStringify (snd e) ++ ")".

Definition go_request_lines (p : ParsedCurl) : list string :=
  if truthy (body p) then
    [tab ++ "body := strings.NewReader("
         ++ jsStringify (bodyStr p (or_empty (body p))) ++ ")";
     tab ++ "req, err := http.NewRequest(" ++ jsStringify (method p)
         ++ ", url, body)"]
  else
    [tab ++ "req, err := http.NewRequest(" ++ jsStringify (method p)
         ++ ", url, nil)"].

Definition generateGo_lines (p : ParsedCurl) : list string :=
  (["package main"; EmptyString; "import ("; tab ++ dq ++ "fmt" ++ dq]
   +++ (if truthy (body p) then [tab ++ dq ++ "strings" ++ dq] else [])
   +++ [tab ++ dq ++ "net/http" ++ dq; tab ++ dq ++ "io" ++ dq; ")"; EmptyString;
       "func main() {";
       tab ++ "url := " ++ jsStringify (url p); EmptyString]
   +++ go_request_lines p
   +++ [tab ++ "if err != nil {"; tab ++ tab ++ "panic(err)"; tab ++ "}";
       EmptyString]
   +++ map go_header_line (Object_entries (headers p))
   +++ match auth p with
      | Some a =>
          [tab ++ "req.SetBasicAuth(" ++ jsStringify (user a) ++ ", "
               ++ jsStringify (password a) ++ ")"]
      | None => []
      end
   +++ [EmptyString;
       tab ++ "client := &http.Client{}";
       tab ++ "resp, err := client.Do(req)";
       tab ++ "if err != nil {"; tab ++ tab ++ "panic(err)"; tab ++ "}";
       tab ++ "defer resp.Body.Close()";
       EmptyString;
       tab ++ "body2, _ := io.ReadAll(resp.Body)";
       tab ++ "fmt.Println(string(body2))";
       "}"]).

Definition generateGo (p : ParsedCurl) : string :=
  join lf (generateGo_lines p).

(** [urlObj.port || (protocol === "https" ? "443" : "80")] *)
Definition effective_port (u : URL) (proto : string) : string :=
  if truthy (Some (port u)) then port u
  else if proto =? "https" then "443" else "80".

(** The condition under which the [port:] line is pushed. *)
Definition shows_port (proto prt : string) : bool :=
  ((proto =? "https") && negb (prt =? "443"))
  || ((proto =? "http") && negb (prt =? "80")).

(** [headerEntries] of [generateNodeJs] after the two conditional pushes. *)
Definition node_header_entries (p : ParsedCurl) : list (string * string) :=
  (Object_entries (headers p)
   +++ (if truthy (body p)
       then [("Content-Length", "Buffer.byteLength(postData)")] else [])
   +++ auth_entries (auth p)).

Definition node_header_line (e : string * string) : string :=
  if fst e =? "Content-Length"
  then "    " ++ jsStringify (fst e) ++ ": " ++ snd e ++ ","
  else "    " ++ jsStringify (fst e) ++ ": " ++ jsStringify (snd e) ++ ",".

Definition node_headers_block (p : ParsedCurl) : list string :=
  match node_header_entries p with
  | [] => []
  | es => ["  headers: {"] +++ map node_header_line es +++ ["  },"]
  end.

Definition node_port_lines (proto prt : string) : list string :=
  if shows_port proto prt then ["  port: " ++ prt ++ ","] else [].

(** The two blocks of [generateNodeJs] that are pushed under [if (p.body)]
    besides the [Content-Length] entry. *)
Definition node_postData_lines (p : ParsedCurl) : list string :=
  if truthy (body p)
  then ["const postData = "
          ++ jsStringify (bodyStr p (or_empty (body p))) ++ ";";
        EmptyString]
  else [].

Definition node_write_lines (p : ParsedCurl) : list string :=
  if truthy (body p) then ["req.write(postData);"] else [].

Definition generateNodeJs_lines (p : ParsedCurl) : list string :=
  match new_URL (url p) with
  | Some urlObj =>
      let proto := remove_first_colon (protocol urlObj) in
      let prt := effective_port urlObj proto in
      let path := pathname urlObj ++ search urlObj in
      (["const " ++ proto ++ " = require('" ++ proto ++ "');"; EmptyString]
       +++ node_postData_lines p
       +++ ["const options = {";
           "  hostname: " ++ jsStringify (hostname urlObj) ++ ","]
       +++ node_port_lines proto prt
       +++ ["  path: "
             ++ jsStringify (if truthy (Some path) then path else "/") ++ ",";
           "  method: " ++ jsStringify (method p) ++ ","]
       +++ node_headers_block p
       +++ ["};"; EmptyString;
           "const req = " ++ proto ++ ".request(options, (res) => {";
           "  let data = '';";
           "  res.on('data', (chunk) => { data += chunk; });";
           "  res.on('end', () => { console.log(JSON.parse(data)); });";
           "});"; EmptyString;
           "req.on('error', (e) => { console.error(e); });"]
       +++ node_write_lines p
       +++ ["req.end();"])
  | None =>
      ["// Could not fully parse the URL: " ++ url p;
       "// Please adjust hostname, path and port below.";
       "const https = require('https');";
       "// ... (manual setup required)"]
  end.

Definition generateNodeJs (p : ParsedCurl) : string :=
  join lf (generateNodeJs_lines p).

End Generators.

(** ** Specification-side notions *)

(** Every character of the input is whitespace (the empty input included). *)
Fixpoint ws_only (s : string) : bool :=
  match s with
  | EmptyString => true
  | String c r => is_space c && ws_only r
  end.

(** The first character of [s] that is not whitespace. *)
Fixpoint first_non_space (s : string) : option ascii :=
  match s with
  | EmptyString => None
  | String c r => if is_space c then first_non_space r else Some c
  end.

Definition non_empty (s : string) : bool := negb (s =? EmptyString).

(** The tokens in positional place: those that neither start with a dash nor
    stand right after a flag that takes an argument. *)
Fixpoint positionals (toks : list string) : list string :=
  match toks with
  | [] => []
  | t :: rest =>
      if consumes_next t then
        match rest with
        | [] => []
        | _ :: rest' => positionals rest'
        end
      else if startsWith "-" t then positionals rest
      else t :: positionals rest
  end.

(** What [url] holds when the loop ends after [toks], having held [u] at
    their start. *)
Definition captured (u : string) (toks : list string) : string :=
  if non_empty u then u else or_empty (find non_empty (positionals toks)).

(** The first token that does not start with a dash, wherever it stands. *)
Definition first_non_flag (toks : list string) : option string :=
  find (fun t => negb (startsWith "-" t)) toks.

Fixpoint last_char (s : string) : option ascii :=
  match s with
  | EmptyString => None
  | String c r =>
      match last_char r with
      | Some x => Some x
      | None => Some c
      end
  end.

(** ** Dispatch, the conversion callback and the sample table *)

(** The union type [Language]; the [default] arm of [generateCode] is
    outside it. *)
Inductive Language : Type :=
  | JsFetch | JsAxios | PythonRequests | Go | NodeJs.

Section Dispatch.

Variable json_reformat : nat -> string -> option string.
Variable new_URL : string -> option URL.

Definition generateCode (parsed : ParsedCurl) (lang : Language) : string :=
  match lang with
  | JsFetch => generateJsFetch json_reformat parsed
  | JsAxios => generateJsAxios json_reformat parsed
  | PythonRequests => generatePythonRequests json_reformat parsed
  | Go => generateGo json_reformat parsed
  | NodeJs => generateNodeJs json_reformat new_URL parsed
  end.

Definition parse_error : string :=
  "Could not parse the cURL command. Make sure it starts with 'curl' and includes a URL.".

(** The callback [convert] of the component: the pair of values it passes
    to [setOutput] and [setError]. *)
Definition convert (raw : string) (lang : Language) : string * string :=
  let trimmed := trim raw in
  if negb (truthy (Some trimmed)) then (EmptyString, EmptyString)
  else
    match parseCurl trimmed with
    | None => (EmptyString, parse_error)
    | Some parsed => (generateCode parsed lang, EmptyString)
    end.

End Dispatch.

(** A backslash, a line feed and two spaces, as the samples break lines. *)
Definition sample_break : string := " \" ++ lf ++ "  ".

(** The table [SAMPLES], in source order. *)
Definition SAMPLES : list (string * string) :=
  [("GET with headers",
    "curl https://api.example.com/users" ++ sample_break
    ++ "-H 'Authorization: Bearer YOUR_TOKEN'" ++ sample_break
    ++ "-H 'Accept: application/json'");
   ("POST JSON",
    "curl -X POST https://api.example.com/users" ++ sample_break
    ++ "-H 'Content-Type: application/json'" ++ sample_break
    ++ "-H 'Authorization: Bearer YOUR_TOKEN'" ++ sample_break
    ++ "-d '{" ++ dq ++ "name" ++ dq ++ ":" ++ dq ++ "John Doe" ++ dq ++ ","
    ++ dq ++ "email" ++ dq ++ ":" ++ dq ++ "john@example.com" ++ dq ++ "}'");
   ("PUT with body",
    "curl -X PUT https://api.example.com/users/42" ++ sample_break
    ++ "-H 'Content-Type: application/json'" ++ sample_break
    ++ "-d '{" ++ dq ++ "name" ++ dq ++ ":" ++ dq ++ "Jane Doe" ++ dq ++ "}'");
   ("Basic auth",
    "curl https://api.example.com/secure" ++ sample_break
    ++ "-u username:password");
   ("Form data",
    "curl -X POST https://api.example.com/login" ++ sample_break
    ++ "-H 'Content-Type: application/x-www-form-urlencoded'" ++ sample_break
    ++ "-d 'username=john&password=secret'")].

(** ** Further specification-side notions *)

Fixpoint all_chars (P : ascii -> bool) (s : string) : bool :=
  match s with
  | EmptyString => true
  | String c r => P c && all_chars P r
  end.

Definition not_space (c : ascii) : bool := negb (is_space c).
Definition not_lf (c : ascii) : bool := negb (Ascii.eqb c ch_lf).
Definition not_sq (c : ascii) : bool := negb (Ascii.eqb c ch_sq).
Definition not_colon (c : ascii) : bool := negb (Ascii.eqb c ":").

(** A word that the tokenizer reads as one unquoted token: not empty, free
    of whitespace, and not opening with a quote. *)
Definition plain_word (w : string) : bool :=
  match w with
  | EmptyString => false
  | String c r =>
      not_space c && negb (Ascii.eqb c ch_sq) && negb (Ascii.eqb c ch_dq)
      && all_chars not_space r
  end.

(** Each word followed by one space. *)
Fixpoint spaced (ws : list string) : string :=
  match ws with
  | [] => EmptyString
  | w :: r => w ++ " " ++ spaced r
  end.

(** A run of tokens in which every flag that takes an argument has one. *)
Fixpoint complete (toks : list string) : bool :=
  match toks with
  | [] => true
  | t :: rest =>
      if consumes_next t then
        match rest with
        | [] => false
        | _ :: rest' => complete rest'
        end
      else complete rest
  end.

(** The flags whose branch assigns [body]. *)
Definition sets_body (t : string) : bool :=
  is_one_of t data_flags || is_one_of t json_flags || is_one_of t form_flags.

(** The flags whose branch writes into [headers]. *)
Definition writes_headers (t : string) : bool :=
  is_one_of t header_flags || is_one_of t json_flags
  || is_one_of t cookie_flags || is_one_of t agent_flags
  || is_one_of t referer_flags.


(** A character that is not a control character. *)
Definition printable (c : ascii) : bool := (32 <=? N_of_ascii c)%N.

Definition hex_val (c : ascii) : option N :=
  let n := N_of_ascii c in
  if ((48 <=? n) && (n <=? 57))%N then Some (n - 48)%N
  else if ((97 <=? n) && (n <=? 102))%N then Some (n - 87)%N
  else None.

(** A reader of the escapes that [json_escape] writes: the inverse that is
    used to show that the rendering of a string loses nothing. *)
Fixpoint json_unescape_all (s : string) : option string :=
  match s with
  | EmptyString => Some EmptyString
  | String c r =>
      if Ascii.eqb c ch_bs then
        match r with
        | String e r' =>
            if Ascii.eqb e "u" then
              match r' with
              | String _ (String _ (String h (String l r''))) =>
                  match hex_val h, hex_val l, json_unescape_all r'' with
                  | Some a, Some b, Some t =>
                      Some (String (ascii_of_N (16 * a + b)) t)
                  | _, _, _ => None
                  end
              | _ => None
              end
            else
              let plain (x : ascii) :=
                match json_unescape_all r' with
                | Some t => Some (String x t)
                | None => None
                end in
              if Ascii.eqb e "b" then plain "008"%char
              else if Ascii.eqb e "t" then plain ch_tab
              else if Ascii.eqb e "n" then plain ch_lf
              else if Ascii.eqb e "f" then plain ch_ff
              else if Ascii.eqb e "r" then plain ch_cr
              else if Ascii.eqb e ch_dq then plain ch_dq
              else if Ascii.eqb e ch_bs then plain ch_bs
              else None
        | EmptyString => None
        end
      else
        match json_unescape_all r with
        | Some t => Some (String c t)
        | None => None
        end
  end.

(** The usual quoting of a value for a double-quoted shell word: a
    backslash before every double quote and every backslash. *)
Fixpoint dq_escape (t : string) : string :=
  match t with
  | EmptyString => EmptyString
  | String c r =>
      if Ascii.eqb c ch_dq || Ascii.eqb c ch_bs
      then String ch_bs (String c (dq_escape r))
      else String c (dq_escape r)
  end.

(** A line break inside a command: a backslash and a line feed, or a
    backslash, a carriage return and a line feed. *)
Definition break_lf : string := String ch_bs (String ch_lf EmptyString).
Definition break_crlf : string :=
  String ch_bs (String ch_cr (String ch_lf EmptyString)).

(** The amended wording of the classification rule: some value that
    contains [pat] is stored under the header name [Content-Type], or is
    stored under [content-type] while nothing, or the empty string, is
    stored under [Content-Type]. *)
Definition content_type_contains (h : object) (pat : string) : Prop :=
  exists v,
    includes pat v = true
    /\ (obj_get "Content-Type" h = Some v
        \/ ((obj_get "Content-Type" h = None
             \/ obj_get "Content-Type" h = Some EmptyString)
            /\ obj_get "content-type" h = Some v)).

(** [text] holds the lines of [block] one after the other, each of them
    from the start of the text or a line break to the next line break or
    the end of the text. *)
Definition has_lines (block : list string) (text : string) : Prop :=
  exists pre post, text = join lf (pre +++ block +++ post).

(** * Properties *)

(** ** Sample runs *)

Example tok_ex1 :
  tokenizeCurl "curl https://a.test -H 'A: 1' -d x"
  = ["curl"; "https://a.test"; "-H"; "A: 1"; "-d"; "x"].
Proof. reflexivity. Qed.

Example parse_ex1 :
  option_map (fun p => (url p, method p, headers p, body p, isJson p))
    (parseCurl "curl -X post https://a.test -H 'A: 1' -H 'A: 2' -d '{}'")
  = Some ("https://a.test", "POST", [("A", "2")], Some "{}", true).
Proof. reflexivity. Qed.

Example sample_get_with_header (jr : nat -> string -> option string) :
  option_map (generateJsFetch_lines jr)
    (parseCurl "curl https://api.example.com/users -H 'Accept: application/json'")
  = Some
      ["const response = await fetch(" ++ dq ++ "https://api.example.com/users"
         ++ dq ++ ", {";
       "  headers: {";
       "    " ++ dq ++ "Accept" ++ dq ++ ": " ++ dq ++ "application/json" ++ dq ++ ",";
       "  },";
       "});";
       "const data = await response.json();";
       "console.log(data);"].
Proof. reflexivity. Qed.

Example sample_post_json :
  option_map (fun p => (method p, isJson p, body p))
    (parseCurl
       ("curl -X POST https://api.example.com/users "
        ++ "-H 'Content-Type: application/json' -d '{}'"))
  = Some ("POST", true, Some "{}").
Proof. reflexivity. Qed.

Example sample_basic_auth (jr : nat -> string -> option string) :
  option_map (fun p => (auth p, generateJsAxios_lines jr p, node_header_entries p))
    (parseCurl "curl https://api.example.com/secure -u admin:secret")
  = Some
      (Some (mkAuth "admin" "secret"),
       ["// Axios handles basic auth natively:";
        "import axios from 'axios';";
        EmptyString;
        "const response = await axios({";
        "  method: " ++ dq ++ "get" ++ dq ++ ",";
        "  url: " ++ dq ++ "https://api.example.com/secure" ++ dq ++ ",";
        "  auth: {";
        "    username: " ++ dq ++ "admin" ++ dq ++ ",";
        "    password: " ++ dq ++ "secret" ++ dq ++ ",";
        "  },";
        "});";
        "console.log(response.data);"],
       [("Authorization", "Basic YWRtaW46c2VjcmV0")]).
Proof. reflexivity. Qed.

Example sample_not_a_command : parseCurl "not-a-curl-command" = None.
Proof. reflexivity. Qed.

Example sample_keyword_only : parseCurl "curl" = None.
Proof. reflexivity. Qed.

Example sample_plain_body :
  option_map isJson (parseCurl "curl https://x.test -d 'plaintext, not json'")
  = Some false.
Proof. reflexivity. Qed.

Example sample_continuation :
  tokenizeCurl ("curl https://a.test \" ++ lf ++ "  -H 'A: 1'")
  = ["curl"; "https://a.test"; "-H"; "A: 1"].
Proof. reflexivity. Qed.

Example sample_entries_order :
  Object_entries [("B", "1"); ("10", "a"); ("2", "b"); ("01", "q")]
  = [("2", "b"); ("10", "a"); ("B", "1"); ("01", "q")].
Proof. reflexivity. Qed.

Example base64_ex : toBase64 "admin:secret" = "YWRtaW46c2VjcmV0".
Proof. reflexivity. Qed.

Example base64_pad1 : toBase64 "ab" = "YWI=".
Proof. reflexivity. Qed.

Example base64_pad2 : toBase64 "a" = "YQ==".
Proof. reflexivity. Qed.

Example jsStringify_ex :
  jsStringify ("a" ++ dq ++ "b\" ++ lf) = dq ++ "a\" ++ dq ++ "b\\\n" ++ dq.
Proof. reflexivity. Qed.

(** ** Flag tables *)

Lemma is_one_of_in (tok : string) (l : list string) :
  is_one_of tok l = true <-> In tok l.
Proof.
  unfold is_one_of. rewrite existsb_exists. split.
  - intros [x [Hin Heq]]. apply String.eqb_eq in Heq. now subst.
  - intros Hin. exists tok. split; [assumption | apply String.eqb_refl].
Qed.

Lemma header_flag_cases (f : string) :
  is_one_of f header_flags = true -> f = "-H" \/ f = "--header".
Proof.
  rewrite is_one_of_in. simpl. intuition.
Qed.

Lemma form_flag_cases (f : string) :
  is_one_of f form_flags = true -> f = "--form" \/ f = "-F".
Proof.
  rewrite is_one_of_in. simpl. intuition.
Qed.

Lemma data_flag_cases (f : string) :
  is_one_of f data_flags = true ->
  f = "-d" \/ f = "--data" \/ f = "--data-raw" \/ f = "--data-binary"
  \/ f = "--data-ascii".
Proof.
  rewrite is_one_of_in. simpl. intuition.
Qed.

(** ** One pass of the loop on a header flag *)

Lemma handle_header (f : string) (arg : option string) (st : pstate) :
  is_one_of f header_flags = true ->
  handle f arg st =
  match indexOf ":" (or_empty arg) with
  | Some colon =>
      set_header (trim (slice_to colon (or_empty arg)))
                 (trim (slice_from (colon + 1) (or_empty arg))) st
  | None => st
  end.
Proof.
  intros H. destruct (header_flag_cases f H); subst; reflexivity.
Qed.

Lemma header_consumes (f : string) :
  is_one_of f header_flags = true -> consumes_next f = true.
Proof.
  intros H. destruct (header_flag_cases f H); subst; reflexivity.
Qed.

Lemma handle_form (f : string) (arg : option string) (st : pstate) :
  is_one_of f form_flags = true ->
  handle f arg st =
  if negb (truthy (st_body st)) then set_body (or_empty arg) st else st.
Proof.
  intros H. destruct (form_flag_cases f H); subst; reflexivity.
Qed.

Lemma form_consumes (f : string) :
  is_one_of f form_flags = true -> consumes_next f = true.
Proof.
  intros H. destruct (form_flag_cases f H); subst; reflexivity.
Qed.

Lemma scanArgs_consuming (st : pstate) (f a : string) (rest : list string) :
  consumes_next f = true ->
  scanArgs st (f :: a :: rest) = scanArgs (handle f (Some a) st) rest.
Proof.
  intros H. simpl. now rewrite H.
Qed.

Lemma scanArgs_consuming_last (st : pstate) (f : string) :
  consumes_next f = true ->
  scanArgs st [f] = handle f None st.
Proof.
  intros H. simpl. now rewrite H.
Qed.

(** ** The headers object *)

Lemma obj_get_put_same (k v : string) (o : object) :
  obj_get k (obj_put k v o) = Some v.
Proof.
  induction o as [| [k' v'] r IH]; simpl.
  - now rewrite String.eqb_refl.
  - destruct (k' =? k) eqn:E; simpl; rewrite E; [reflexivity | exact IH].
Qed.

Lemma obj_get_put_other (k k2 v : string) (o : object) :
  k2 <> k -> obj_get k2 (obj_put k v o) = obj_get k2 o.
Proof.
  intros Hne. induction o as [| [k' v'] r IH]; simpl.
  - destruct (k =? k2) eqn:E; [apply String.eqb_eq in E; congruence | reflexivity].
  - destruct (k' =? k) eqn:E; simpl.
    + apply String.eqb_eq in E. subst k'.
      destruct (k =? k2) eqn:E2; [apply String.eqb_eq in E2; congruence | reflexivity].
    + destruct (k' =? k2); [reflexivity | exact IH].
Qed.

(** A write under any name but [__proto__] is read back, whatever was stored
    under that name before. *)
Lemma obj_get_set_same (k v : string) (o : object) :
  k <> proto_name -> obj_get k (obj_set k v o) = Some v.
Proof.
  intros Hne. unfold obj_set.
  destruct (k =? proto_name) eqn:E.
  - apply String.eqb_eq in E. contradiction.
  - apply obj_get_put_same.
Qed.

Lemma obj_get_set_other (k k2 v : string) (o : object) :
  k2 <> k -> obj_get k2 (obj_set k v o) = obj_get k2 o.
Proof.
  intros Hne. unfold obj_set.
  destruct (k =? proto_name); [reflexivity | now apply obj_get_put_other].
Qed.

Lemma obj_set_proto (v : string) (o : object) :
  obj_set proto_name v o = o.
Proof. reflexivity. Qed.

(** A header flag whose argument has a colon, and whose name is not
    [__proto__], stores the trimmed pair; the scan goes on after the
    argument. *)
Lemma header_with_colon_stores
    (st : pstate) (f arg : string) (rest : list string) (colon : nat) :
  is_one_of f header_flags = true ->
  indexOf ":" arg = Some colon ->
  let key := trim (slice_to colon arg) in
  let val := trim (slice_from (colon + 1) arg) in
  scanArgs st (f :: arg :: rest) = scanArgs (set_header key val st) rest
  /\ (key <> proto_name ->
      obj_get key (st_headers (set_header key val st)) = Some val).
Proof.
  intros Hf Hc key val. split.
  - rewrite scanArgs_consuming by now apply header_consumes.
    rewrite handle_header by assumption. simpl or_empty. now rewrite Hc.
  - intros Hne. simpl. now apply obj_get_set_same.
Qed.

(** ** Which token becomes the URL *)

Lemma listed_flag_dash (l : list string) (t : string) :
  forallb (startsWith "-") l = true ->
  is_one_of t l = true -> startsWith "-" t = true.
Proof.
  intros Hall Hin. rewrite forallb_forall in Hall.
  apply Hall. now apply is_one_of_in.
Qed.

Ltac flag_branch E :=
  match type of E with
  | is_one_of ?t ?l = true =>
      let H := fresh "Hdash" in
      assert (H : startsWith "-" t = true)
        by (apply (listed_flag_dash l t); [reflexivity | exact E])
  end.

Lemma consumes_dash (t : string) :
  consumes_next t = true -> startsWith "-" t = true.
Proof.
  unfold consumes_next. intros H.
  repeat (apply orb_true_iff in H; destruct H as [H | H]);
    try discriminate H;
    apply String.eqb_eq in H; subst t; reflexivity.
Qed.

(** A token that starts with a dash never touches [url]. *)
Lemma handle_flag_keeps_url (t : string) (arg : option string) (st : pstate) :
  startsWith "-" t = true -> st_url (handle t arg st) = st_url st.
Proof.
  intros Hd. unfold handle.
  repeat match goal with
         | |- context [if is_one_of t ?l then _ else _] =>
             destruct (is_one_of t l)
         end;
    try reflexivity.
  - destruct (indexOf ":" (or_empty arg)); reflexivity.
  - destruct (indexOf ":" (or_empty arg)); reflexivity.
  - destruct (negb (truthy (st_body st))); reflexivity.
  - rewrite Hd. reflexivity.
Qed.

(** A token that does not start with a dash is the positional branch. *)
Lemma handle_positional (t : string) (arg : option string) (st : pstate) :
  startsWith "-" t = false ->
  handle t arg st = if non_empty (st_url st) then st else set_url t st.
Proof.
  intros Hd. unfold handle.
  repeat match goal with
         | |- context [if is_one_of t ?l then _ else _] =>
             let E := fresh "E" in
             destruct (is_one_of t l) eqn:E;
             [flag_branch E; congruence |]
         end.
  rewrite Hd. simpl. unfold non_empty.
  destruct (st_url st =? EmptyString); reflexivity.
Qed.

Lemma positionals_cons (t : string) (rest : list string) :
  positionals (t :: rest) =
  if consumes_next t then
    match rest with
    | [] => []
    | _ :: rest' => positionals rest'
    end
  else if startsWith "-" t then positionals rest
  else t :: positionals rest.
Proof. reflexivity. Qed.

Lemma scanArgs_cons (st : pstate) (t : string) (rest : list string) :
  scanArgs st (t :: rest) =
  if consumes_next t then
    match rest with
    | [] => handle t None st
    | a :: rest' => scanArgs (handle t (Some a) st) rest'
    end
  else scanArgs (handle t None st) rest.
Proof. reflexivity. Qed.

Lemma captured_nil (u : string) : captured u [] = u.
Proof.
  unfold captured. simpl. destruct (non_empty u) eqn:E; [reflexivity |].
  unfold non_empty in E. apply negb_false_iff, String.eqb_eq in E. now rewrite E.
Qed.

Lemma scanArgs_url_bounded (n : nat) :
  forall (toks : list string) (st : pstate),
    List.length toks <= n ->
    st_url (scanArgs st toks) = captured (st_url st) toks.
Proof.
  induction n as [| n IH]; intros toks st Hlen.
  - destruct toks; [| simpl in Hlen; lia]. now rewrite captured_nil.
  - destruct toks as [| t rest]; [now rewrite captured_nil |].
    simpl in Hlen. rewrite scanArgs_cons. unfold captured.
    rewrite positionals_cons.
    destruct (consumes_next t) eqn:Ec.
    + pose proof (consumes_dash t Ec) as Hd.
      destruct rest as [| a rest'].
      * rewrite handle_flag_keeps_url by assumption.
        exact (eq_sym (captured_nil (st_url st))).
      * rewrite IH by (simpl in Hlen; lia).
        rewrite handle_flag_keeps_url by assumption. reflexivity.
    + rewrite IH by lia. unfold captured.
      destruct (startsWith "-" t) eqn:Ed.
      * rewrite handle_flag_keeps_url by assumption. reflexivity.
      * rewrite handle_positional by assumption.
        destruct (non_empty (st_url st)) eqn:E.
        -- rewrite E. reflexivity.
        -- simpl st_url. simpl find.
           destruct (non_empty t) eqn:Et; reflexivity.
Qed.

(** After the loop, [url] is the first non-empty token in positional place,
    or still empty when there is none. *)
Lemma scanArgs_url (toks : list string) :
  st_url (scanArgs init_state toks)
  = or_empty (find non_empty (positionals toks)).
Proof.
  rewrite (scanArgs_url_bounded (List.length toks)) by lia. reflexivity.
Qed.

Lemma find_non_empty_some (l : list string) (u : string) :
  find non_empty l = Some u -> u <> EmptyString.
Proof.
  intros H. apply find_some in H. destruct H as [_ H].
  unfold non_empty in H. apply negb_true_iff, String.eqb_neq in H. exact H.
Qed.

Lemma finish_some_url (st : pstate) (p : ParsedCurl) :
  finish st = Some p -> url p = st_url st /\ st_url st <> EmptyString.
Proof.
  unfold finish. simpl truthy.
  destruct (st_url st =? EmptyString) eqn:E; simpl; [discriminate |].
  intros H. injection H as <-. simpl. split; [reflexivity |].
  now apply String.eqb_neq.
Qed.

Lemma finish_none (st : pstate) :
  finish st = None <-> st_url st = EmptyString.
Proof.
  unfold finish. simpl truthy.
  destruct (st_url st =? EmptyString) eqn:E; simpl.
  - apply String.eqb_eq in E. tauto.
  - apply String.eqb_neq in E. split; [discriminate | contradiction].
Qed.

(** ** The tokenizer yields no token exactly on blank input *)

Lemma trimStart_head (s : string) :
  trimStart s = EmptyString
  \/ exists c r, trimStart s = String c r /\ is_space c = false.
Proof.
  induction s as [| c r IH]; simpl.
  - now left.
  - destruct (is_space c) eqn:E; [exact IH |].
    right. now exists c, r.
Qed.

Lemma trimStart_empty (s : string) :
  trimStart s = EmptyString <-> ws_only s = true.
Proof.
  induction s as [| c r IH]; simpl.
  - tauto.
  - destruct (is_space c); simpl; [exact IH |].
    split; discriminate.
Qed.

Lemma trimEnd_empty (s : string) :
  trimEnd s = EmptyString -> ws_only s = true.
Proof.
  induction s as [| c r IH]; simpl; [reflexivity |].
  destruct (trimEnd r); [| discriminate].
  destruct (is_space c); [| discriminate].
  intros _. now apply IH.
Qed.

Lemma trim_empty (s : string) :
  trim s = EmptyString <-> ws_only s = true.
Proof.
  unfold trim. split.
  - intros H. apply trimEnd_empty in H.
    destruct (trimStart_head s) as [E | [c [r [E Hc]]]].
    + now apply trimStart_empty.
    + rewrite E in H. simpl in H. rewrite Hc in H. discriminate.
  - intros H. apply trimStart_empty in H. now rewrite H.
Qed.

Lemma last_char_cons (c : ascii) (r : string) :
  last_char (String c r) =
  match last_char r with
  | Some y => Some y
  | None => Some c
  end.
Proof. reflexivity. Qed.

Lemma last_char_none (s : string) :
  last_char s = None -> s = EmptyString.
Proof.
  destruct s as [| c r]; simpl; [reflexivity |].
  destruct (last_char r); discriminate.
Qed.

(** What [trimEnd] leaves is empty or ends with a character that is not
    whitespace. *)
Lemma trimEnd_last (s : string) :
  trimEnd s = EmptyString
  \/ exists c, last_char (trimEnd s) = Some c /\ is_space c = false.
Proof.
  induction s as [| c r IH]; simpl; [now left |].
  destruct IH as [E | [x [Hx Hs]]].
  - rewrite E. destruct (is_space c) eqn:Ec; [now left |].
    right. exists c. now split.
  - right. exists x. destruct (trimEnd r) as [| d r'] eqn:E.
    + discriminate.
    + split; [| assumption]. change (last_char (String c (String d r')))
        with (match last_char (String d r') with
              | Some y => Some y
              | None => Some c
              end).
      now rewrite Hx.
Qed.

Lemma ws_only_last (s : string) (c : ascii) :
  ws_only s = true -> last_char s = Some c -> is_space c = true.
Proof.
  induction s as [| a r IH]; simpl; [discriminate |].
  intros H. apply andb_true_iff in H. destruct H as [Ha Hr].
  destruct (last_char r) as [x |] eqn:E.
  - intros Hx. injection Hx as ->. now apply IH.
  - intros Hx. injection Hx as ->. exact Ha.
Qed.

Lemma is_space_lf : is_space ch_lf = true.
Proof. reflexivity. Qed.

Lemma replace_bs_lf_last (n : nat) :
  forall (s : string) (x : ascii),
    String.length s <= n ->
    last_char s = Some x -> is_space x = false ->
    last_char (replace_bs_lf s) = Some x.
Proof.
  induction n as [| n IH]; intros s x Hlen Hlast Hx.
  - destruct s; [discriminate | simpl in Hlen; lia].
  - destruct s as [| c [| d r']]; [discriminate | exact Hlast |].
    simpl in Hlen.
    change (replace_bs_lf (String c (String d r')))
      with (if Ascii.eqb c ch_bs && Ascii.eqb d ch_lf
            then String ch_sp (replace_bs_lf r')
            else String c (replace_bs_lf (String d r'))).
    assert (Htail : last_char (String d r') = Some x).
    { simpl in Hlast. simpl. destruct (last_char r'); exact Hlast. }
    destruct (Ascii.eqb c ch_bs && Ascii.eqb d ch_lf) eqn:E.
    + apply andb_true_iff in E. destruct E as [_ Ed].
      apply Ascii.eqb_eq in Ed. subst d.
      simpl in Htail. destruct (last_char r') as [y |] eqn:Er.
      * injection Htail as ->.
        rewrite last_char_cons.
        rewrite (IH r' x) by (try assumption; lia). reflexivity.
      * injection Htail as <-. rewrite is_space_lf in Hx. discriminate.
    + rewrite last_char_cons.
      rewrite (IH (String d r') x) by (try assumption; simpl; lia).
      reflexivity.
Qed.

Lemma replace_bs_crlf_last (n : nat) :
  forall (s : string) (x : ascii),
    String.length s <= n ->
    last_char s = Some x -> is_space x = false ->
    last_char (replace_bs_crlf s) = Some x.
Proof.
  induction n as [| n IH]; intros s x Hlen Hlast Hx.
  - destruct s; [discriminate | simpl in Hlen; lia].
  - destruct s as [| c [| d [| e r']]]; [discriminate | exact Hlast | exact Hlast |].
    simpl in Hlen.
    change (replace_bs_crlf (String c (String d (String e r'))))
      with (if Ascii.eqb c ch_bs && Ascii.eqb d ch_cr && Ascii.eqb e ch_lf
            then String ch_sp (replace_bs_crlf r')
            else String c (replace_bs_crlf (String d (String e r')))).
    assert (Htail : last_char (String d (String e r')) = Some x).
    { simpl in Hlast. simpl. destruct (last_char r'); exact Hlast. }
    destruct (Ascii.eqb c ch_bs && Ascii.eqb d ch_cr && Ascii.eqb e ch_lf) eqn:E.
    + apply andb_true_iff in E. destruct E as [_ Ee].
      apply Ascii.eqb_eq in Ee. subst e.
      simpl in Htail. destruct (last_char r') as [y |] eqn:Er.
      * injection Htail as ->.
        rewrite last_char_cons.
        rewrite (IH r' x) by (try assumption; lia). reflexivity.
      * injection Htail as <-. rewrite is_space_lf in Hx. discriminate.
    + rewrite last_char_cons.
      rewrite (IH (String d (String e r')) x) by (try assumption; simpl; lia).
      reflexivity.
Qed.

(** Only the place between two tokens can end the scan with nothing pushed,
    and only over whitespace. *)
Lemma scan_nil_bounded (n : nat) :
  forall (s : string) (m : mode) (tok : string),
    String.length s <= n ->
    scan m tok s = [] -> m = Between /\ ws_only s = true.
Proof.
  induction n as [| n IH]; intros s m tok Hlen H.
  - destruct s; [| simpl in Hlen; lia].
    destruct m; simpl in H; try discriminate. now split.
  - destruct s as [| c r].
    + destruct m; simpl in H; try discriminate. now split.
    + simpl in Hlen. assert (Hr : String.length r <= n) by lia.
      destruct m; simpl in H.
      * destruct (is_space c) eqn:Ec.
        -- apply IH in H; [| assumption]. destruct H as [_ H].
           split; [reflexivity |]. simpl. now rewrite Ec.
        -- destruct (Ascii.eqb c ch_sq).
           ++ apply IH in H; [| assumption]. destruct H; discriminate.
           ++ destruct (Ascii.eqb c ch_dq);
                (apply IH in H; [| assumption]); destruct H; discriminate.
      * destruct (is_space c); [discriminate |].
        apply IH in H; [| assumption]. destruct H; discriminate.
      * destruct (Ascii.eqb c ch_sq); [discriminate |].
        apply IH in H; [| assumption]. destruct H; discriminate.
      * destruct (Ascii.eqb c ch_dq); [discriminate |].
        destruct (Ascii.eqb c ch_bs).
        -- destruct r as [| e r'].
           ++ simpl in H. discriminate.
           ++ apply IH in H; [| simpl in Hr; lia]. destruct H; discriminate.
        -- apply IH in H; [| assumption]. destruct H; discriminate.
Qed.

Lemma scan_blank (s : string) (tok : string) :
  ws_only s = true -> scan Between tok s = [].
Proof.
  revert tok. induction s as [| c r IH]; intros tok H; simpl; [reflexivity |].
  simpl in H. apply andb_true_iff in H. destruct H as [Hc Hr].
  rewrite Hc. now apply IH.
Qed.

Lemma tokenize_nil (raw : string) :
  tokenizeCurl raw = [] <-> ws_only raw = true.
Proof.
  unfold tokenizeCurl. split.
  - intros H.
    apply (scan_nil_bounded _ _ _ _ (le_n _)) in H. destruct H as [_ H].
    destruct (trimEnd_last (trimStart raw)) as [E | [c [Hc Hs]]].
    + now apply trim_empty.
    + fold (trim raw) in Hc.
      pose proof (replace_bs_lf_last _ _ _ (le_n _) Hc Hs) as H1.
      pose proof (replace_bs_crlf_last _ _ _ (le_n _) H1 Hs) as H2.
      rewrite (ws_only_last _ _ H H2) in Hs. discriminate.
  - intros H. apply trim_empty in H. rewrite H. reflexivity.
Qed.

(** ** Parse failure *)

Lemma find_positional_none (rest : list string) :
  st_url (scanArgs init_state rest) = EmptyString
  <-> find non_empty (positionals rest) = None.
Proof.
  rewrite scanArgs_url.
  destruct (find non_empty (positionals rest)) as [u |] eqn:E; simpl.
  - apply find_non_empty_some in E. split; [contradiction | discriminate].
  - tauto.
Qed.

(** C5.  [parseCurl] is a total function into [option ParsedCurl]; it
    returns [None], and so no request model at all, exactly when the input
    is empty or whitespace only, or its first token is not [curl] up to
    letter case, or the scan captures no URL (no non-empty token stands in
    positional place).  No branch of the function raises. *)
Theorem parse_failure_exactly (raw : string) :
  parseCurl raw = None <->
  ws_only raw = true
  \/ (exists c rest, tokenizeCurl raw = c :: rest /\ toLowerCase c <> "curl")
  \/ (exists c rest, tokenizeCurl raw = c :: rest
                     /\ toLowerCase c = "curl"
                     /\ find non_empty (positionals rest) = None).
Proof.
  unfold parseCurl, parseTokens.
  destruct (tokenizeCurl raw) as [| c rest] eqn:Etok.
  - split; [| reflexivity]. intros _. left. now apply tokenize_nil.
  - destruct (toLowerCase c =? "curl") eqn:Ec; simpl.
    + apply String.eqb_eq in Ec. rewrite finish_none, find_positional_none.
      split.
      * intros H. right. right. now exists c, rest.
      * intros [H | [[c' [rest' [H Hne]]] | [c' [rest' [H [_ Hf]]]]]].
        -- apply tokenize_nil in H. congruence.
        -- injection H as <- <-. contradiction.
        -- injection H as <- <-. exact Hf.
    + apply String.eqb_neq in Ec. split; [| reflexivity].
      intros _. right. left. now exists c, rest.
Qed.

(** ** The captured URL *)

(** C3, as amended.  When the first token is [curl] up to letter case and
    some non-empty token stands in positional place (it does not start with
    a dash and does not follow a flag that takes an argument), the parse
    succeeds and [url] is the first such token, unchanged. *)
Theorem url_is_first_positional
    (raw c u : string) (rest : list string) :
  tokenizeCurl raw = c :: rest ->
  toLowerCase c = "curl" ->
  find non_empty (positionals rest) = Some u ->
  exists p, parseCurl raw = Some p /\ url p = u.
Proof.
  intros Htok Hc Hu. unfold parseCurl, parseTokens. rewrite Htok, Hc. simpl.
  destruct (finish (scanArgs init_state rest)) as [p |] eqn:Ef.
  - exists p. split; [reflexivity |].
    apply finish_some_url in Ef. destruct Ef as [-> _].
    rewrite scanArgs_url, Hu. reflexivity.
  - apply finish_none, find_positional_none in Ef. congruence.
Qed.

Lemma url_is_first_positional_witness :
  exists p,
    parseCurl "curl -X POST 'https://a.test/x?y=1' -H 'A: 1' later" = Some p
    /\ url p = "https://a.test/x?y=1".
Proof.
  apply (url_is_first_positional
           "curl -X POST 'https://a.test/x?y=1' -H 'A: 1' later" "curl"
           "https://a.test/x?y=1"
           ["-X"; "POST"; "https://a.test/x?y=1"; "-H"; "A: 1"; "later"]);
    reflexivity.
Defined.

(** C3, as stated, fails: a token that does not start with a dash can be the
    argument of a flag, and an empty token never becomes the URL. *)
Lemma first_non_flag_not_url :
  (tokenizeCurl "curl -X POST" = ["curl"; "-X"; "POST"]
   /\ first_non_flag ["-X"; "POST"] = Some "POST"
   /\ parseCurl "curl -X POST" = None)
  /\ (tokenizeCurl "curl '' https://a.test" = ["curl"; EmptyString; "https://a.test"]
      /\ first_non_flag [EmptyString; "https://a.test"] = Some EmptyString
      /\ option_map url (parseCurl "curl '' https://a.test")
         = Some "https://a.test")
  /\ ~ (forall (raw c u : string) (rest : list string),
          tokenizeCurl raw = c :: rest ->
          toLowerCase c = "curl" ->
          first_non_flag rest = Some u ->
          exists p, parseCurl raw = Some p /\ url p = u).
Proof.
  repeat split; try reflexivity.
  intros H.
  destruct (H "curl -X POST" "curl" "POST" ["-X"; "POST"]
              eq_refl eq_refl eq_refl) as [p [Hp _]].
  discriminate Hp.
Qed.

(** ** Header flags *)

(** C9.  A header flag whose argument has no colon leaves the whole parser
    state, the headers object included, as it was; the argument is consumed
    and the scan goes on with the token after it.  The same holds when the
    flag is the last token and its argument is the empty string. *)
Theorem header_without_colon_ignored
    (st : pstate) (f arg : string) (rest : list string) :
  is_one_of f header_flags = true ->
  indexOf ":" arg = None ->
  st_headers (handle f (Some arg) st) = st_headers st
  /\ scanArgs st (f :: arg :: rest) = scanArgs st rest
  /\ scanArgs st [f] = st.
Proof.
  intros Hf Hc.
  assert (H1 : handle f (Some arg) st = st).
  { rewrite handle_header by assumption. simpl or_empty. now rewrite Hc. }
  repeat split.
  - now rewrite H1.
  - rewrite scanArgs_consuming by now apply header_consumes. now rewrite H1.
  - rewrite scanArgs_consuming_last by now apply header_consumes.
    rewrite handle_header by assumption. reflexivity.
Qed.

Lemma header_without_colon_ignored_witness :
  st_headers (handle "-H" (Some "no colon here") init_state) = []
  /\ scanArgs init_state ["-H"; "no colon here"; "https://a.test"]
     = scanArgs init_state ["https://a.test"]
  /\ scanArgs init_state ["-H"] = init_state.
Proof.
  apply (header_without_colon_ignored init_state "-H" "no colon here"
           ["https://a.test"]); reflexivity.
Defined.

(** C7.  The pair of a header flag is stored and a later pair under the same
    name replaces it, as in the quoted fragment; but the name [__proto__]
    is not stored at all. *)
Theorem proto_header_not_stored :
  option_map headers (parseCurl "curl https://a.test -H '__proto__: v'")
  = Some []
  /\ option_map headers (parseCurl "curl https://a.test -H 'A: 1' -H 'A: 2'")
     = Some [("A", "2")].
Proof. split; reflexivity. Qed.

(** ** Form flags *)

Lemma form_keeps_non_empty_body
    (st : pstate) (f a : string) (rest : list string) :
  is_one_of f form_flags = true ->
  truthy (st_body st) = true ->
  scanArgs st (f :: a :: rest) = scanArgs st rest.
Proof.
  intros Hf Hb. rewrite scanArgs_consuming by now apply form_consumes.
  rewrite handle_form by assumption. now rewrite Hb.
Qed.

Lemma form_sets_absent_body
    (st : pstate) (f a : string) (rest : list string) :
  is_one_of f form_flags = true ->
  st_body st = None ->
  scanArgs st (f :: a :: rest) = scanArgs (set_body a st) rest.
Proof.
  intros Hf Hb. rewrite scanArgs_consuming by now apply form_consumes.
  rewrite handle_form by assumption. now rewrite Hb.
Qed.

(** C4.  A form flag that follows a body set to the empty string, by a form
    flag or by a data flag, replaces that body. *)
Theorem form_after_empty_body_overwrites :
  option_map body (parseCurl "curl https://a.test -F '' -F b") = Some (Some "b")
  /\ option_map body (parseCurl "curl https://a.test -d '' -F b")
     = Some (Some "b")
  /\ option_map body (parseCurl "curl https://a.test -F a -F b")
     = Some (Some "a").
Proof. repeat split; reflexivity. Qed.

(** ** Method inference *)

Lemma finish_fields (st : pstate) (p : ParsedCurl) :
  finish st = Some p ->
  headers p = st_headers st /\ body p = st_body st /\ auth p = st_auth st
  /\ method p = (if st_method st =? EmptyString
                 then (if truthy (st_body st) then "POST" else "GET")
                 else st_method st)
  /\ isJson p = (includes "application/json" (contentType (st_headers st))
                 || body_opens_with "{" (st_body st)
                 || body_opens_with "[" (st_body st))
  /\ isFormData p =
     includes "application/x-www-form-urlencoded" (contentType (st_headers st)).
Proof.
  unfold finish. destruct (negb (truthy (Some (st_url st)))); [discriminate |].
  intros H. injection H as <-. simpl.
  repeat split. destruct (st_method st =? EmptyString); reflexivity.
Qed.

Lemma parse_some_state (raw : string) (p : ParsedCurl) :
  parseCurl raw = Some p ->
  exists c rest,
    tokenizeCurl raw = c :: rest /\ finish (scanArgs init_state rest) = Some p.
Proof.
  unfold parseCurl, parseTokens.
  destruct (tokenizeCurl raw) as [| c rest]; [discriminate |].
  destruct (negb (toLowerCase c =? "curl")); [discriminate |].
  intros H. now exists c, rest.
Qed.

(** With no method given, the method is [POST] for a non-empty body and
    [GET] for an absent one. *)
Lemma method_inference (st : pstate) (p : ParsedCurl) :
  finish st = Some p ->
  st_method st = EmptyString ->
  (body p = None -> method p = "GET")
  /\ (forall b, body p = Some b -> b <> EmptyString -> method p = "POST").
Proof.
  intros Hf Hm. apply finish_fields in Hf.
  destruct Hf as [_ [Hb [_ [Hmeth _]]]].
  rewrite Hm in Hmeth. simpl in Hmeth. rewrite Hmeth, Hb. split.
  - intros ->. reflexivity.
  - intros b -> Hne. simpl. apply String.eqb_neq in Hne. now rewrite Hne.
Qed.

(** C1.  A body given as the empty string, with no method flag, is parsed
    with method [GET]: on the sample input, and whenever the loop ends with
    an empty [method] and the body [""]. *)
Theorem empty_body_infers_get :
  option_map (fun p => (body p, method p))
    (parseCurl "curl https://a.test -d ''")
  = Some (Some EmptyString, "GET")
  /\ forall (st : pstate) (p : ParsedCurl),
      finish st = Some p ->
      st_method st = EmptyString ->
      st_body st = Some EmptyString ->
      body p = Some EmptyString /\ method p = "GET".
Proof.
  split; [reflexivity |].
  intros st p Hf Hm Hb. apply finish_fields in Hf.
  destruct Hf as [_ [Hbody [_ [Hmeth _]]]].
  rewrite Hbody, Hmeth, Hm, Hb. split; reflexivity.
Qed.

Lemma handle_keeps_method (t : string) (arg : option string) (st : pstate) :
  is_one_of t method_flags = false ->
  st_method (handle t arg st) = st_method st.
Proof.
  intros Hm. unfold handle. rewrite Hm.
  repeat match goal with
         | |- context [if is_one_of t ?l then _ else _] =>
             destruct (is_one_of t l)
         end;
    try reflexivity.
  - destruct (indexOf ":" (or_empty arg)); reflexivity.
  - destruct (indexOf ":" (or_empty arg)); reflexivity.
  - destruct (negb (truthy (st_body st))); reflexivity.
  - destruct (negb (startsWith "-" t)); [| reflexivity].
    destruct (negb (truthy (Some (st_url st)))); reflexivity.
Qed.

(** Without a method flag among the tokens, [method] is still empty when the
    loop ends. *)
Lemma no_method_flag_bounded (n : nat) :
  forall (toks : list string) (st : pstate),
    List.length toks <= n ->
    forallb (fun t => negb (is_one_of t method_flags)) toks = true ->
    st_method (scanArgs st toks) = st_method st.
Proof.
  induction n as [| n IH]; intros toks st Hlen Hall.
  - destruct toks; [reflexivity | simpl in Hlen; lia].
  - destruct toks as [| t rest]; [reflexivity |].
    simpl in Hlen. simpl in Hall. apply andb_true_iff in Hall.
    destruct Hall as [Ht Hrest]. apply negb_true_iff in Ht.
    rewrite scanArgs_cons. destruct (consumes_next t).
    + destruct rest as [| a rest'].
      * now apply handle_keeps_method.
      * simpl in Hrest. apply andb_true_iff in Hrest.
        rewrite IH by (try tauto; simpl in Hlen; lia).
        now apply handle_keeps_method.
    + rewrite IH by (try assumption; lia). now apply handle_keeps_method.
Qed.

(** ** Content-type classification *)

Lemma startsWith_trimStart (c : ascii) (s : string) :
  startsWith (String c EmptyString) (trimStart s) = true
  <-> first_non_space s = Some c.
Proof.
  induction s as [| a r IH]; simpl.
  - split; discriminate.
  - destruct (is_space a); [exact IH |].
    simpl. rewrite andb_true_r. rewrite Ascii.eqb_eq.
    split; [intros -> | intros H; injection H as ->]; reflexivity.
Qed.

Lemma body_opens_with_spec (c : ascii) (b : option string) :
  body_opens_with (String c EmptyString) b = true
  <-> exists s, b = Some s /\ first_non_space s = Some c.
Proof.
  destruct b as [s |]; unfold body_opens_with.
  - rewrite startsWith_trimStart. split.
    + intros H. now exists s.
    + intros [s' [E H]]. injection E as ->. exact H.
  - split; [discriminate | intros [s' [E _]]; discriminate].
Qed.

(** The two flags of a parsed request, in terms of its own headers and
    body. *)
Lemma classification_of_parse (raw : string) (p : ParsedCurl) :
  parseCurl raw = Some p ->
  (isJson p = true <->
     includes "application/json" (contentType (headers p)) = true
     \/ exists b, body p = Some b
                  /\ (first_non_space b = Some "{"%char
                      \/ first_non_space b = Some "["%char))
  /\ isFormData p
     = includes "application/x-www-form-urlencoded" (contentType (headers p)).
Proof.
  intros Hp. apply parse_some_state in Hp.
  destruct Hp as [c [rest [_ Hf]]]. apply finish_fields in Hf.
  destruct Hf as [Hh [Hb [_ [_ [Hj Hfd]]]]].
  rewrite Hj, Hfd, Hh, Hb. split; [| reflexivity].
  rewrite !orb_true_iff, !body_opens_with_spec. split.
  - intros [[H | [s [E H]]] | [s [E H]]].
    + now left.
    + right. exists s. tauto.
    + right. exists s. tauto.
  - intros [H | [s [E [H | H]]]].
    + left. now left.
    + left. right. now exists s.
    + right. now exists s.
Qed.

Lemma contentType_value (h : object) :
  (exists v, obj_get "Content-Type" h = Some v /\ v <> EmptyString
             /\ contentType h = v)
  \/ ((obj_get "Content-Type" h = None
       \/ obj_get "Content-Type" h = Some EmptyString)
      /\ ((exists v, obj_get "content-type" h = Some v /\ v <> EmptyString
                     /\ contentType h = v)
          \/ ((obj_get "content-type" h = None
               \/ obj_get "content-type" h = Some EmptyString)
              /\ contentType h = EmptyString))).
Proof.
  unfold contentType, truthy, or_empty.
  destruct (obj_get "Content-Type" h) as [v |].
  - destruct (v =? EmptyString) eqn:Ev.
    + apply String.eqb_eq in Ev. subst v. right. split; [now right |].
      destruct (obj_get "content-type" h) as [w |].
      * destruct (w =? EmptyString) eqn:Ew.
        -- apply String.eqb_eq in Ew. subst w. right. split; [now right | reflexivity].
        -- apply String.eqb_neq in Ew. left. exists w. now repeat split.
      * right. split; [now left | reflexivity].
    + apply String.eqb_neq in Ev. left. exists v. now repeat split.
  - right. split; [now left |].
    destruct (obj_get "content-type" h) as [w |].
    + destruct (w =? EmptyString) eqn:Ew.
      * apply String.eqb_eq in Ew. subst w. right. split; [now right | reflexivity].
      * apply String.eqb_neq in Ew. left. exists w. now repeat split.
    + right. split; [now left | reflexivity].
Qed.

(** The content type that the code computes contains [pat] exactly when
    the two header names hold it as the amended rule says. *)
Lemma contentType_contains (pat : string) (h : object) :
  includes pat EmptyString = false ->
  (includes pat (contentType h) = true <-> content_type_contains h pat).
Proof.
  intros He. unfold content_type_contains.
  destruct (contentType_value h)
    as [[v [Hu [Hne Hc]]] | [Hu [[v [Hl [Hne Hc]]] | [Hl Hc]]]]; rewrite Hc.
  - split.
    + intros H. exists v. split; [exact H | now left].
    + intros [x [Hx [E | [[E | E] _]]]].
      * rewrite Hu in E. injection E as <-. exact Hx.
      * rewrite Hu in E. discriminate E.
      * rewrite Hu in E. injection E as E. contradiction.
  - split.
    + intros H. exists v. split; [exact H | right; now split].
    + intros [x [Hx [E | [_ E]]]].
      * destruct Hu as [Hu | Hu]; rewrite Hu in E; [discriminate E |].
        injection E as <-. congruence.
      * rewrite Hl in E. injection E as <-. exact Hx.
  - split.
    + intros H. congruence.
    + intros [x [Hx [E | [_ E]]]].
      * destruct Hu as [Hu | Hu]; rewrite Hu in E; [discriminate E |].
        injection E as <-. congruence.
      * destruct Hl as [Hl | Hl]; rewrite Hl in E; [discriminate E |].
        injection E as <-. congruence.
Qed.

(** C6, as amended.  [isJson] holds exactly when a value that contains
    [application/json] is stored under the header name [Content-Type], or
    under [content-type] while [Content-Type] is absent or empty, or when a
    body is present whose first character after leading whitespace is an
    opening brace or bracket; [isFormData] holds exactly when a value that
    contains [application/x-www-form-urlencoded] is stored under those
    names in the same way.  Both are read off the headers and body of the
    finished request. *)
Theorem classification_exactly (raw : string) (p : ParsedCurl) :
  parseCurl raw = Some p ->
  (isJson p = true <->
     content_type_contains (headers p) "application/json"
     \/ exists b, body p = Some b
                  /\ (first_non_space b = Some "{"%char
                      \/ first_non_space b = Some "["%char))
  /\ (isFormData p = true <->
        content_type_contains (headers p) "application/x-www-form-urlencoded").
Proof.
  intros Hp. destruct (classification_of_parse raw p Hp) as [Hj Hf].
  rewrite <- !contentType_contains by reflexivity.
  split; [exact Hj |]. rewrite Hf. tauto.
Qed.

Lemma classification_exactly_witness :
  exists p,
    parseCurl "curl https://a.test -H 'content-type: application/json' -d x"
    = Some p
    /\ isJson p = true /\ isFormData p = false.
Proof.
  eexists. split; [vm_compute; reflexivity |].
  match goal with
  | |- isJson ?p = true /\ _ =>
      pose proof (classification_exactly
        "curl https://a.test -H 'content-type: application/json' -d x"
        p eq_refl) as [Hj Hf]
  end.
  split.
  - apply Hj. left. exists "application/json".
    split; [reflexivity |]. right. split; [now left | reflexivity].
  - reflexivity.
Defined.

(** C6, as stated, fails: with the content type stored under the lower-case
    name only, nothing is stored under [Content-Type] and there is no body,
    yet [isJson] (respectively [isFormData]) holds. *)
Lemma lowercase_content_type_classifies :
  option_map (fun p => (isJson p, obj_get "Content-Type" (headers p), body p))
    (parseCurl "curl https://a.test -H 'content-type: application/json'")
  = Some (true, None, None)
  /\ option_map (fun p => (isFormData p, obj_get "Content-Type" (headers p)))
       (parseCurl
          "curl https://a.test -H 'content-type: application/x-www-form-urlencoded'")
     = Some (true, None)
  /\ ~ (forall (raw : string) (p : ParsedCurl),
          parseCurl raw = Some p ->
          (isJson p = true <->
             (exists v, obj_get "Content-Type" (headers p) = Some v
                        /\ includes "application/json" v = true)
             \/ exists b, body p = Some b
                          /\ (first_non_space b = Some "{"%char
                              \/ first_non_space b = Some "["%char))).
Proof.
  repeat split; try reflexivity.
  intros H.
  destruct (parseCurl "curl https://a.test -H 'content-type: application/json'")
    as [p |] eqn:Hp; [| vm_compute in Hp; discriminate Hp].
  pose proof (H _ p Hp) as Hiff.
  vm_compute in Hp. injection Hp as <-.
  destruct (proj1 Hiff eq_refl) as [[v [Hv _]] | [b [Hb _]]]; discriminate.
Qed.

Lemma contentType_cases (h : object) :
  contentType h = EmptyString
  \/ obj_get "Content-Type" h = Some (contentType h)
  \/ obj_get "content-type" h = Some (contentType h).
Proof.
  unfold contentType.
  destruct (obj_get "Content-Type" h) as [v |]; simpl.
  - destruct (v =? EmptyString); simpl; [| tauto].
    destruct (obj_get "content-type" h) as [w |]; simpl; [| tauto].
    destruct (w =? EmptyString); simpl; tauto.
  - destruct (obj_get "content-type" h) as [w |]; simpl; [| tauto].
    destruct (w =? EmptyString); simpl; tauto.
Qed.

(** The content type depends on the headers object only through the two
    names it is read under. *)
Lemma contentType_two_names (h1 h2 : object) :
  obj_get "Content-Type" h1 = obj_get "Content-Type" h2 ->
  obj_get "content-type" h1 = obj_get "content-type" h2 ->
  contentType h1 = contentType h2.
Proof.
  intros H1 H2. unfold contentType. now rewrite H1, H2.
Qed.

Lemma not_included_elsewhere (pat : string) (h : object) :
  includes pat EmptyString = false ->
  (forall k v, obj_get k h = Some v -> includes pat v = true ->
               k <> "Content-Type" /\ k <> "content-type") ->
  includes pat (contentType h) = false.
Proof.
  intros He H.
  destruct (contentType_cases h) as [E | [E | E]].
  - now rewrite E.
  - destruct (includes pat (contentType h)) eqn:Ei; [| reflexivity].
    destruct (H _ _ E Ei) as [Hk _]. now contradiction Hk.
  - destruct (includes pat (contentType h)) eqn:Ei; [| reflexivity].
    destruct (H _ _ E Ei) as [_ Hk]. now contradiction Hk.
Qed.

(** C10.  The classification reads the headers object under the two names
    [Content-Type] and [content-type] and no other: a request in which
    [application/json] (respectively [application/x-www-form-urlencoded])
    occurs only in values stored under other names, and whose body does not
    open with a brace or bracket after leading whitespace, has [isJson]
    (respectively [isFormData]) false. *)
Theorem other_casing_not_classified (raw : string) (p : ParsedCurl) :
  parseCurl raw = Some p ->
  (forall b, body p = Some b ->
             first_non_space b <> Some "{"%char
             /\ first_non_space b <> Some "["%char) ->
  (forall h' : object,
      obj_get "Content-Type" h' = obj_get "Content-Type" (headers p) ->
      obj_get "content-type" h' = obj_get "content-type" (headers p) ->
      contentType h' = contentType (headers p))
  /\ ((forall k v, obj_get k (headers p) = Some v ->
                   includes "application/json" v = true ->
                   k <> "Content-Type" /\ k <> "content-type") ->
      isJson p = false)
  /\ ((forall k v, obj_get k (headers p) = Some v ->
                   includes "application/x-www-form-urlencoded" v = true ->
                   k <> "Content-Type" /\ k <> "content-type") ->
      isFormData p = false).
Proof.
  intros Hp Hbody.
  destruct (classification_of_parse raw p Hp) as [Hj Hf].
  split; [intros h'; apply contentType_two_names |].
  split; intros Hk.
  - destruct (isJson p) eqn:E; [| reflexivity].
    destruct (proj1 Hj eq_refl) as [H | [b [Hb [H | H]]]].
    + rewrite not_included_elsewhere in H by (try assumption; reflexivity).
      discriminate.
    + destruct (Hbody b Hb) as [Hn _]. contradiction.
    + destruct (Hbody b Hb) as [_ Hn]. contradiction.
  - rewrite Hf. apply not_included_elsewhere; [reflexivity | assumption].
Qed.

Lemma other_casing_not_classified_witness :
  exists p,
    parseCurl "curl https://a.test -H 'CONTENT-TYPE: application/json' -d x"
    = Some p
    /\ isJson p = false.
Proof.
  eexists. split; [vm_compute; reflexivity |].
  match goal with
  | |- isJson ?p = false =>
      refine (proj1 (proj2 (other_casing_not_classified
        "curl https://a.test -H 'CONTENT-TYPE: application/json' -d x"
        p eq_refl _)) _)
  end.
  - intros b Hb. injection Hb as <-. split; discriminate.
  - intros k v Hget _. simpl in Hget.
    split; intros ->; simpl in Hget; discriminate.
Defined.

(** ** Rendering of the body *)

(** An absent body renders no body construct in any of the five targets. *)
Lemma absent_body_not_rendered
    (jr : nat -> string -> option string) (p : ParsedCurl) :
  body p = None ->
  fetch_body_lines jr p = []
  /\ axios_body_lines jr p = []
  /\ python_body jr p = ([], [])
  /\ go_request_lines jr p
     = [tab ++ "req, err := http.NewRequest(" ++ jsStringify (method p)
            ++ ", url, nil)"]
  /\ node_postData_lines jr p = []
  /\ node_write_lines p = []
  /\ node_header_entries p
     = Object_entries (headers p) +++ auth_entries (auth p).
Proof.
  intros Hb.
  unfold fetch_body_lines, axios_body_lines, python_body, go_request_lines,
    node_postData_lines, node_write_lines, node_header_entries.
  rewrite Hb. simpl. repeat split.
Qed.

(** The three targets that test [p.body !== null] render every body that is
    present, the empty one included, on one line that opens with the
    target's body field. *)
Lemma present_body_rendered_js_python
    (jr : nat -> string -> option string) (p : ParsedCurl) (b : string) :
  body p = Some b ->
  (exists l, fetch_body_lines jr p = [l]
             /\ startsWith (indent 1 ++ "body: ") l = true)
  /\ (exists l, axios_body_lines jr p = [l]
                /\ startsWith (indent 1 ++ "data: ") l = true)
  /\ (exists l a, python_body jr p = ([l; EmptyString], [a])
                  /\ (startsWith "payload = " l = true
                      \/ startsWith "data = " l = true)).
Proof.
  intros Hb.
  unfold fetch_body_lines, axios_body_lines, python_body. rewrite Hb.
  destruct (isJson p).
  - destruct (jr 2 b), (jr 4 b);
      repeat split; do 2 eexists; repeat split; tauto.
  - destruct (isFormData p);
      repeat split; do 2 eexists; repeat split; tauto.
Qed.

(** The two targets that test [if (p.body)] render a non-empty body. *)
Lemma non_empty_body_rendered_go_node
    (jr : nat -> string -> option string) (p : ParsedCurl) (b : string) :
  body p = Some b -> b <> EmptyString ->
  go_request_lines jr p
  = [tab ++ "body := strings.NewReader(" ++ jsStringify (bodyStr jr p b) ++ ")";
     tab ++ "req, err := http.NewRequest(" ++ jsStringify (method p)
         ++ ", url, body)"]
  /\ node_postData_lines jr p
     = ["const postData = " ++ jsStringify (bodyStr jr p b) ++ ";"; EmptyString]
  /\ node_write_lines p = ["req.write(postData);"].
Proof.
  intros Hb Hne. apply String.eqb_neq in Hne.
  unfold go_request_lines, node_postData_lines, node_write_lines.
  rewrite Hb. simpl. rewrite Hne. simpl. repeat split.
Qed.

(** C2.  A request whose body is the empty string is reachable, and the Go
    and Node.js targets render it exactly as the same request with no body:
    no body reader, no [postData], no [Content-Length], no [req.write];
    whereas the fetch, axios and python targets render the empty body. *)
Theorem empty_body_rendered_as_absent :
  option_map body (parseCurl "curl https://a.test -d ''")
  = Some (Some EmptyString)
  /\ forall (jr : nat -> string -> option string) (nu : string -> option URL)
            (u m : string) (h : object) (a : option auth_t) (f j : bool),
      generateGo jr (mkParsed u m h (Some EmptyString) a f j)
      = generateGo jr (mkParsed u m h None a f j)
      /\ generateNodeJs jr nu (mkParsed u m h (Some EmptyString) a f j)
         = generateNodeJs jr nu (mkParsed u m h None a f j)
      /\ go_request_lines jr (mkParsed u m h (Some EmptyString) a f j)
         = [tab ++ "req, err := http.NewRequest(" ++ jsStringify m
                ++ ", url, nil)"]
      /\ fetch_body_lines jr (mkParsed u m h (Some EmptyString) a f false)
         = [indent 1 ++ "body: " ++ dq ++ dq ++ ","]
      /\ axios_body_lines jr (mkParsed u m h (Some EmptyString) a f false)
         = [indent 1 ++ "data: " ++ dq ++ dq ++ ","]
      /\ python_body jr (mkParsed u m h (Some EmptyString) a f false)
         = (["data = " ++ dq ++ dq; EmptyString], ["data=data"]).
Proof.
  split; [reflexivity |].
  intros jr nu u m h a f j. repeat split.
  destruct f; reflexivity.
Qed.

(** ** The Node.js target: port and header entries *)

(** The [port:] line is pushed only for a port that differs from the
    protocol's default. *)
Lemma node_port_only_when_differs (u : URL) (proto : string) :
  node_port_lines proto (effective_port u proto) <> [] ->
  effective_port u proto <> (if proto =? "https" then "443" else "80").
Proof.
  unfold node_port_lines, shows_port. intros H Heq.
  destruct (proto =? "https") eqn:Es.
  - apply String.eqb_eq in Es. subst proto.
    rewrite Heq in H. now apply H.
  - simpl in H. destruct (proto =? "http"); simpl in H.
    + rewrite Heq in H. now apply H.
    + now apply H.
Qed.

(** For [http] and [https] the line is pushed whenever the port differs. *)
Lemma node_port_shown_http (u : URL) (proto : string) :
  proto = "http" \/ proto = "https" ->
  effective_port u proto <> (if proto =? "https" then "443" else "80") ->
  node_port_lines proto (effective_port u proto)
  = ["  port: " ++ effective_port u proto ++ ","].
Proof.
  unfold node_port_lines, shows_port.
  intros [-> | ->] Hne; simpl in *; apply String.eqb_neq in Hne;
    now rewrite Hne.
Qed.

(** With a non-empty body the [Content-Length] entry follows every header
    of the request, the [Authorization] entry follows it, and its value is
    rendered as the byte-length expression, not as a quoted string. *)
Lemma node_entries_with_body (p : ParsedCurl) :
  truthy (body p) = true ->
  node_header_entries p
  = Object_entries (headers p)
    +++ [("Content-Length", "Buffer.byteLength(postData)")]
    +++ auth_entries (auth p)
  /\ node_header_line ("Content-Length", "Buffer.byteLength(postData)")
     = "    " ++ dq ++ "Content-Length" ++ dq
       ++ ": Buffer.byteLength(postData),".
Proof.
  intros Hb. unfold node_header_entries. rewrite Hb. split; reflexivity.
Qed.

(** C8.  For a request that carries an empty-string body, a header and
    credentials, the header entries of the Node.js target are the header
    and the [Authorization] entry alone: no [Content-Length] entry is
    appended, and no [postData] is declared.  The last part gives the whole
    output when [new URL] returns the parts of [https://a.test]. *)
Theorem empty_body_no_content_length :
  option_map (fun p => (body p, node_header_entries p))
    (parseCurl "curl https://a.test -H 'A: 1' -u u:p -d ''")
  = Some (Some EmptyString, [("A", "1"); ("Authorization", "Basic dTpw")])
  /\ forall jr : nat -> string -> option string,
      option_map (node_postData_lines jr)
        (parseCurl "curl https://a.test -H 'A: 1' -u u:p -d ''")
      = Some []
      /\ option_map
           (generateNodeJs_lines jr
              (fun _ => Some (mkURL "https:" "a.test" EmptyString "/" EmptyString)))
           (parseCurl "curl https://a.test -H 'A: 1' -u u:p -d ''")
         = Some
             ["const https = require('https');";
              EmptyString;
              "const options = {";
              "  hostname: " ++ dq ++ "a.test" ++ dq ++ ",";
              "  path: " ++ dq ++ "/" ++ dq ++ ",";
              "  method: " ++ dq ++ "GET" ++ dq ++ ",";
              "  headers: {";
              "    " ++ dq ++ "A" ++ dq ++ ": " ++ dq ++ "1" ++ dq ++ ",";
              "    " ++ dq ++ "Authorization" ++ dq ++ ": " ++ dq
                ++ "Basic dTpw" ++ dq ++ ",";
              "  },";
              "};";
              EmptyString;
              "const req = https.request(options, (res) => {";
              "  let data = '';";
              "  res.on('data', (chunk) => { data += chunk; });";
              "  res.on('end', () => { console.log(JSON.parse(data)); });";
              "});";
              EmptyString;
              "req.on('error', (e) => { console.error(e); });";
              "req.end();"].
Proof. split; [| intros jr; split]; reflexivity. Qed.

(** * Further properties of the converter *)

(** ** Trimming and the conversion callback *)

(** The tokenizer yields no token at all exactly on blank input. *)
Theorem tokenize_blank_iff (raw : string) :
  tokenizeCurl raw = [] <-> ws_only raw = true.
Proof. exact (tokenize_nil raw). Qed.

Lemma trimEnd_idempotent (s : string) :
  trimEnd (trimEnd s) = trimEnd s.
Proof.
  induction s as [| c r IH]; [reflexivity |].
  simpl. destruct (trimEnd r) as [| d r'] eqn:E.
  - destruct (is_space c) eqn:Ec; [reflexivity |].
    simpl. now rewrite Ec.
  - change (trimEnd (String c (String d r')))
      with (match trimEnd (String d r') with
            | EmptyString =>
                if is_space c then EmptyString else String c EmptyString
            | r2 => String c r2
            end).
    now rewrite IH.
Qed.

Lemma trimEnd_keeps_head (c : ascii) (r : string) :
  is_space c = false ->
  exists r', trimEnd (String c r) = String c r'.
Proof.
  intros Hc. simpl. destruct (trimEnd r) as [| d r'].
  - rewrite Hc. now exists EmptyString.
  - now exists (String d r').
Qed.

Lemma trimStart_trim (s : string) : trimStart (trim s) = trim s.
Proof.
  unfold trim.
  destruct (trimStart_head s) as [E | [c [r [E Hc]]]].
  - now rewrite E.
  - rewrite E. destruct (trimEnd_keeps_head c r Hc) as [r' Er].
    rewrite Er. simpl. now rewrite Hc.
Qed.

Lemma trim_idempotent (s : string) : trim (trim s) = trim s.
Proof.
  unfold trim at 1. rewrite trimStart_trim.
  unfold trim. apply trimEnd_idempotent.
Qed.

Lemma parse_trim_same (raw : string) :
  tokenizeCurl (trim raw) = tokenizeCurl raw
  /\ parseCurl (trim raw) = parseCurl raw.
Proof.
  assert (H : tokenizeCurl (trim raw) = tokenizeCurl raw).
  { unfold tokenizeCurl. now rewrite trim_idempotent. }
  split; [exact H |]. unfold parseCurl. now rewrite H.
Qed.

(** Trimming the input beforehand, as [convert] does, changes neither the
    tokens nor the parse. *)
Theorem parse_after_trim (raw : string) :
  tokenizeCurl (trim raw) = tokenizeCurl raw
  /\ parseCurl (trim raw) = parseCurl raw.
Proof. exact (parse_trim_same raw). Qed.

Lemma parse_some_not_blank (raw : string) (p : ParsedCurl) :
  parseCurl raw = Some p -> ws_only raw = false.
Proof.
  intros Hp. destruct (ws_only raw) eqn:E; [| reflexivity].
  apply tokenize_nil in E. unfold parseCurl in Hp. rewrite E in Hp.
  discriminate Hp.
Qed.

Lemma trim_truthy (raw : string) :
  truthy (Some (trim raw)) = negb (ws_only raw).
Proof.
  simpl. destruct (ws_only raw) eqn:E.
  - apply trim_empty in E. now rewrite E.
  - destruct (trim raw =? EmptyString) eqn:Et; [| reflexivity].
    apply String.eqb_eq, trim_empty in Et. congruence.
Qed.

Lemma convert_cases
    (jr : nat -> string -> option string) (nu : string -> option URL)
    (raw : string) (lang : Language) :
  (ws_only raw = true ->
   convert jr nu raw lang = (EmptyString, EmptyString))
  /\ (ws_only raw = false -> parseCurl raw = None ->
      convert jr nu raw lang = (EmptyString, parse_error))
  /\ (forall p, parseCurl raw = Some p ->
                convert jr nu raw lang = (generateCode jr nu p lang, EmptyString))
  /\ (fst (convert jr nu raw lang) = EmptyString
      \/ snd (convert jr nu raw lang) = EmptyString).
Proof.
  unfold convert. rewrite trim_truthy.
  rewrite (proj2 (parse_trim_same raw)).
  repeat split.
  - intros ->. reflexivity.
  - intros -> ->. reflexivity.
  - intros p Hp. rewrite (parse_some_not_blank raw p Hp), Hp. reflexivity.
  - destruct (ws_only raw); simpl; [now left |].
    destruct (parseCurl raw); simpl; [now right | now left].
Qed.

(** What [convert] shows, in terms of the untrimmed input: nothing at all
    for blank input; the fixed message and no output when the input does
    not parse; the generated code and no message when it does.  Output and
    message are never both set. *)
Theorem convert_outcomes
    (jr : nat -> string -> option string) (nu : string -> option URL)
    (raw : string) (lang : Language) :
  (ws_only raw = true ->
   convert jr nu raw lang = (EmptyString, EmptyString))
  /\ (ws_only raw = false -> parseCurl raw = None ->
      convert jr nu raw lang = (EmptyString, parse_error))
  /\ (forall p, parseCurl raw = Some p ->
                convert jr nu raw lang = (generateCode jr nu p lang, EmptyString))
  /\ (fst (convert jr nu raw lang) = EmptyString
      \/ snd (convert jr nu raw lang) = EmptyString).
Proof. exact (convert_cases jr nu raw lang). Qed.

(** ** Tokens of plain words and of quoted runs *)

Lemma sapp_assoc (a b c : string) : (a ++ b) ++ c = a ++ (b ++ c).
Proof.
  induction a as [| x a IH]; simpl; [reflexivity | now rewrite IH].
Qed.

Lemma sapp_nil_r (a : string) : a ++ EmptyString = a.
Proof.
  induction a as [| x a IH]; simpl; [reflexivity | now rewrite IH].
Qed.

Lemma all_chars_app (P : ascii -> bool) (a b : string) :
  all_chars P (a ++ b) = all_chars P a && all_chars P b.
Proof.
  induction a as [| x a IH]; simpl; [reflexivity |].
  rewrite IH. now rewrite andb_assoc.
Qed.

Lemma all_chars_impl (P Q : ascii -> bool) (s : string) :
  (forall c, P c = true -> Q c = true) ->
  all_chars P s = true -> all_chars Q s = true.
Proof.
  intros HPQ. induction s as [| x s IH]; simpl; [reflexivity |].
  intros H. apply andb_true_iff in H. destruct H as [Hx Hs].
  rewrite (HPQ x Hx). now apply IH.
Qed.

Lemma not_space_not_lf (c : ascii) : not_space c = true -> not_lf c = true.
Proof.
  unfold not_space, not_lf. intros H.
  destruct (Ascii.eqb c ch_lf) eqn:E; [| reflexivity].
  apply Ascii.eqb_eq in E. subst c. discriminate H.
Qed.

Lemma last_char_app (a b : string) :
  last_char (a ++ b) =
  match last_char b with
  | Some x => Some x
  | None => last_char a
  end.
Proof.
  induction a as [| x a IH]; simpl.
  - destruct (last_char b); reflexivity.
  - rewrite IH. destruct (last_char b); reflexivity.
Qed.

Lemma last_char_all (P : ascii -> bool) (s : string) (c : ascii) :
  all_chars P s = true -> last_char s = Some c -> P c = true.
Proof.
  induction s as [| x s IH]; simpl; [discriminate |].
  intros H. apply andb_true_iff in H. destruct H as [Hx Hs].
  destruct (last_char s) as [y |].
  - intros E. injection E as <-. now apply IH.
  - intros E. injection E as <-. exact Hx.
Qed.

Lemma replace_bs_lf_id (s : string) :
  all_chars not_lf s = true -> replace_bs_lf s = s.
Proof.
  induction s as [| c r IH]; [reflexivity |].
  intros H. simpl in H. apply andb_true_iff in H. destruct H as [_ Hr].
  destruct r as [| d r']; [reflexivity |].
  change (replace_bs_lf (String c (String d r')))
    with (if Ascii.eqb c ch_bs && Ascii.eqb d ch_lf
          then String ch_sp (replace_bs_lf r')
          else String c (replace_bs_lf (String d r'))).
  assert (Hd : Ascii.eqb d ch_lf = false).
  { simpl in Hr. apply andb_true_iff in Hr. destruct Hr as [Hd _].
    now apply negb_true_iff in Hd. }
  rewrite Hd, andb_false_r. now rewrite IH.
Qed.

Lemma replace_bs_crlf_id (s : string) :
  all_chars not_lf s = true -> replace_bs_crlf s = s.
Proof.
  induction s as [| c r IH]; [reflexivity |].
  intros H. simpl in H. apply andb_true_iff in H. destruct H as [_ Hr].
  destruct r as [| d [| e r']]; [reflexivity | reflexivity |].
  change (replace_bs_crlf (String c (String d (String e r'))))
    with (if Ascii.eqb c ch_bs && Ascii.eqb d ch_cr && Ascii.eqb e ch_lf
          then String ch_sp (replace_bs_crlf r')
          else String c (replace_bs_crlf (String d (String e r')))).
  assert (He : Ascii.eqb e ch_lf = false).
  { simpl in Hr. apply andb_true_iff in Hr. destruct Hr as [_ Hr].
    apply andb_true_iff in Hr. destruct Hr as [He _].
    now apply negb_true_iff in He. }
  rewrite He, andb_false_r. now rewrite IH.
Qed.

Lemma trimEnd_id (s : string) (c : ascii) :
  last_char s = Some c -> is_space c = false -> trimEnd s = s.
Proof.
  revert c. induction s as [| a r IH]; intros c Hl Hc; [reflexivity |].
  simpl in Hl. simpl. destruct (last_char r) as [y |] eqn:E.
  - injection Hl as ->. rewrite (IH c eq_refl Hc).
    destruct r; [discriminate E | reflexivity].
  - injection Hl as ->. apply last_char_none in E. subst r.
    simpl. now rewrite Hc.
Qed.

(** Text that opens and ends with a character that is not whitespace and
    holds no line feed reaches the scan as it is. *)
Lemma normalise_id (c x : ascii) (r : string) :
  is_space c = false ->
  last_char (String c r) = Some x -> is_space x = false ->
  all_chars not_lf (String c r) = true ->
  replace_bs_crlf (replace_bs_lf (trim (String c r))) = String c r.
Proof.
  intros Hc Hl Hx Hn. unfold trim.
  assert (Hs : trimStart (String c r) = String c r) by (simpl; now rewrite Hc).
  rewrite Hs, (trimEnd_id _ x Hl Hx).
  rewrite replace_bs_lf_id by assumption. now apply replace_bs_crlf_id.
Qed.

Lemma scan_unquoted_run (w tok rest : string) :
  all_chars not_space w = true ->
  scan Unquoted tok (w ++ rest) = scan Unquoted (tok ++ w) rest.
Proof.
  revert tok. induction w as [| c w IH]; intros tok H.
  - simpl. now rewrite sapp_nil_r.
  - simpl in H. apply andb_true_iff in H. destruct H as [Hc Hw].
    unfold not_space in Hc. apply negb_true_iff in Hc.
    simpl. rewrite Hc. rewrite IH by assumption.
    unfold push_char. now rewrite sapp_assoc.
Qed.

Lemma scan_plain_word (w t0 rest : string) :
  plain_word w = true ->
  scan Between t0 (w ++ rest) = scan Unquoted w rest.
Proof.
  destruct w as [| c w]; [discriminate |]. simpl.
  intros H. repeat (apply andb_true_iff in H; destruct H as [H ?]).
  unfold not_space in H. apply negb_true_iff in H.
  rewrite H.
  match goal with
  | Hq : negb (Ascii.eqb c ch_sq) = true |- _ =>
      apply negb_true_iff in Hq; rewrite Hq
  end.
  match goal with
  | Hq : negb (Ascii.eqb c ch_dq) = true |- _ =>
      apply negb_true_iff in Hq; rewrite Hq
  end.
  now rewrite scan_unquoted_run.
Qed.

Lemma scan_spaced (ws : list string) (t0 rest : string) :
  forallb plain_word ws = true ->
  scan Between t0 (spaced ws ++ rest) = (ws ++ scan Between EmptyString rest)%list.
Proof.
  revert t0. induction ws as [| w ws IH]; intros t0 H.
  - simpl. destruct rest as [| c r]; [reflexivity |]. reflexivity.
  - simpl in H. apply andb_true_iff in H. destruct H as [Hw Hws].
    simpl spaced. rewrite !sapp_assoc.
    rewrite scan_plain_word by assumption.
    simpl. now rewrite IH.
Qed.

Lemma scan_single_run (t tok rest : string) :
  all_chars not_sq t = true ->
  scan Single tok (t ++ String ch_sq rest)
  = (tok ++ t) :: scan Between EmptyString rest
  /\ scan Single tok t = [tok ++ t].
Proof.
  revert tok. induction t as [| c t IH]; intros tok H.
  - simpl. rewrite sapp_nil_r. now split.
  - simpl in H. apply andb_true_iff in H. destruct H as [Hc Ht].
    unfold not_sq in Hc. apply negb_true_iff in Hc.
    simpl. rewrite Hc. destruct (IH (push_char tok c) Ht) as [H1 H2].
    rewrite H1, H2. unfold push_char. rewrite sapp_assoc. now split.
Qed.

Lemma spaced_no_lf (ws : list string) :
  forallb plain_word ws = true -> all_chars not_lf (spaced ws) = true.
Proof.
  induction ws as [| w ws IH]; intros H; [reflexivity |].
  simpl in H. apply andb_true_iff in H. destruct H as [Hw Hws].
  change (spaced (w :: ws)) with (w ++ " " ++ spaced ws).
  rewrite !all_chars_app, (IH Hws).
  assert (Hn : all_chars not_lf w = true).
  { destruct w as [| c w]; [discriminate |]. simpl in Hw.
    repeat (apply andb_true_iff in Hw; destruct Hw as [Hw ?]).
    simpl. rewrite (not_space_not_lf c Hw).
    now apply (all_chars_impl not_space not_lf w not_space_not_lf). }
  rewrite Hn. reflexivity.
Qed.

Lemma spaced_head (ws : list string) (c0 : ascii) (r0 : string) :
  forallb plain_word ws = true -> is_space c0 = false ->
  exists c r, spaced ws ++ String c0 r0 = String c r /\ is_space c = false.
Proof.
  intros H Hc0. destruct ws as [| w ws].
  - now exists c0, r0.
  - simpl in H. apply andb_true_iff in H. destruct H as [Hw _].
    destruct w as [| c w]; [discriminate |]. simpl in Hw.
    repeat (apply andb_true_iff in Hw; destruct Hw as [Hw ?]).
    unfold not_space in Hw. apply negb_true_iff in Hw.
    simpl. eexists _, _. split; [reflexivity | exact Hw].
Qed.

(** Plain words, each followed by a space, and then a last piece that opens
    and ends with a character that is not whitespace and holds no line
    feed: the words are the first tokens, the scan of the last piece gives
    the rest. *)
Lemma tokenize_spaced_tail
    (ws : list string) (c0 x : ascii) (r0 : string) :
  forallb plain_word ws = true ->
  is_space c0 = false ->
  last_char (String c0 r0) = Some x -> is_space x = false ->
  all_chars not_lf (String c0 r0) = true ->
  tokenizeCurl (spaced ws ++ String c0 r0)
  = (ws ++ scan Between EmptyString (String c0 r0))%list.
Proof.
  intros Hws Hc0 Hl Hx Hn. unfold tokenizeCurl.
  destruct (spaced_head ws c0 r0 Hws Hc0) as [c [r [E Hc]]].
  assert (Hnorm : replace_bs_crlf (replace_bs_lf (trim (spaced ws ++ String c0 r0)))
                  = spaced ws ++ String c0 r0).
  { rewrite E. apply (normalise_id c x r Hc).
    - rewrite <- E, last_char_app, Hl. reflexivity.
    - exact Hx.
    - rewrite <- E, all_chars_app, (spaced_no_lf ws Hws). exact Hn. }
  rewrite Hnorm. now apply scan_spaced.
Qed.

Lemma join_snoc (ws : list string) (x : string) :
  join " " (ws ++ [x]) = spaced ws ++ x.
Proof.
  induction ws as [| w ws IH]; [reflexivity |].
  simpl app. simpl join.
  destruct (ws ++ [x])%list as [| y l] eqn:E.
  - destruct ws; discriminate E.
  - rewrite IH. simpl. now rewrite sapp_assoc.
Qed.

(** Words that are not empty, hold no whitespace and do not open with a
    quote, joined by single spaces, are tokenized back into those words. *)
Theorem tokenize_plain_words (ws : list string) :
  forallb plain_word ws = true ->
  tokenizeCurl (join " " ws) = ws.
Proof.
  intros H. destruct ws as [| w0 ws0] eqn:Ews; [reflexivity |].
  rewrite <- Ews in *. assert (Hne : ws <> []) by (rewrite Ews; discriminate).
  destruct (exists_last Hne) as [init [x Ex]]. rewrite Ex in *.
  rewrite forallb_app in H. apply andb_true_iff in H. destruct H as [Hi Hx].
  simpl in Hx. rewrite andb_true_r in Hx.
  rewrite join_snoc.
  destruct x as [| c r] eqn:Exx; [discriminate Hx |].
  assert (Hall : all_chars not_space (String c r) = true).
  { simpl in Hx. repeat (apply andb_true_iff in Hx; destruct Hx as [Hx ?]).
    simpl. now rewrite Hx. }
  assert (Hc : is_space c = false).
  { simpl in Hall. apply andb_true_iff in Hall. destruct Hall as [Hc _].
    now apply negb_true_iff in Hc. }
  destruct (last_char (String c r)) as [y |] eqn:El;
    [| apply last_char_none in El; discriminate El].
  pose proof (last_char_all not_space _ y Hall El) as Hy.
  apply negb_true_iff in Hy.
  rewrite (tokenize_spaced_tail init c y r Hi Hc El Hy)
    by (now apply (all_chars_impl not_space not_lf _ not_space_not_lf)).
  f_equal.
  pose proof (scan_plain_word (String c r) EmptyString EmptyString Hx) as Hs.
  rewrite sapp_nil_r in Hs. exact Hs.
Qed.

Lemma tokenize_plain_words_witness :
  tokenizeCurl (join " " ["curl"; "-X"; "PUT"; "https://a.test/x?y=1"; "-k"])
  = ["curl"; "-X"; "PUT"; "https://a.test/x?y=1"; "-k"].
Proof.
  apply (tokenize_plain_words
           ["curl"; "-X"; "PUT"; "https://a.test/x?y=1"; "-k"]).
  reflexivity.
Defined.

(** After plain words, a single-quoted run free of single quotes and line
    feeds is one token, taken as it stands: spaces, double quotes and
    backslashes included. *)
Theorem tokenize_single_quoted (ws : list string) (t : string) :
  forallb plain_word ws = true ->
  all_chars not_sq t = true ->
  all_chars not_lf t = true ->
  tokenizeCurl (spaced ws ++ String ch_sq (t ++ String ch_sq EmptyString))
  = (ws ++ [t])%list.
Proof.
  intros Hws Hsq Hlf.
  rewrite (tokenize_spaced_tail ws ch_sq ch_sq).
  - f_equal. simpl.
    destruct (scan_single_run t EmptyString EmptyString Hsq) as [H1 _].
    exact H1.
  - exact Hws.
  - reflexivity.
  - change (String ch_sq (t ++ String ch_sq EmptyString))
      with (String ch_sq EmptyString ++ (t ++ String ch_sq EmptyString)).
    rewrite !last_char_app. reflexivity.
  - reflexivity.
  - simpl. rewrite all_chars_app, Hlf. reflexivity.
Qed.

Lemma tokenize_single_quoted_witness :
  tokenizeCurl
    ("curl https://a.test -d '{" ++ dq ++ "a" ++ dq ++ ": " ++ dq
     ++ "b \n c" ++ dq ++ "}'")
  = ["curl"; "https://a.test"; "-d";
     "{" ++ dq ++ "a" ++ dq ++ ": " ++ dq ++ "b \n c" ++ dq ++ "}"].
Proof.
  apply (tokenize_single_quoted ["curl"; "https://a.test"; "-d"]
           ("{" ++ dq ++ "a" ++ dq ++ ": " ++ dq ++ "b \n c" ++ dq ++ "}"));
    reflexivity.
Defined.

(** A single quote that is never closed is tolerated: what follows it, up
    to the end of the input, is the last token. *)
Theorem tokenize_unterminated_quote (ws : list string) (t : string) :
  forallb plain_word ws = true ->
  all_chars not_sq t = true ->
  all_chars not_lf t = true ->
  (forall c, last_char t = Some c -> is_space c = false) ->
  tokenizeCurl (spaced ws ++ String ch_sq t) = (ws ++ [t])%list.
Proof.
  intros Hws Hsq Hlf Hend.
  assert (Hl : exists x, last_char (String ch_sq t) = Some x
                         /\ is_space x = false).
  { simpl. destruct (last_char t) as [y |] eqn:E.
    - exists y. split; [reflexivity | now apply Hend].
    - exists ch_sq. now split. }
  destruct Hl as [x [Hl Hx]].
  rewrite (tokenize_spaced_tail ws ch_sq x t Hws eq_refl Hl Hx)
    by (simpl; exact Hlf).
  f_equal. simpl.
  destruct (scan_single_run t EmptyString EmptyString Hsq) as [_ H2].
  exact H2.
Qed.

Lemma tokenize_unterminated_quote_witness :
  tokenizeCurl "curl https://a.test -d 'never closed"
  = ["curl"; "https://a.test"; "-d"; "never closed"].
Proof.
  apply (tokenize_unterminated_quote ["curl"; "https://a.test"; "-d"]
           "never closed"); try reflexivity.
  intros c H. vm_compute in H. injection H as <-. reflexivity.
Defined.

(** ** The loop of the parser: composition and what a token leaves alone *)

Lemma scanArgs_invariant (P : pstate -> Prop) :
  (forall t arg st, P st -> P (handle t arg st)) ->
  forall (n : nat) (toks : list string) (st : pstate),
    List.length toks <= n -> P st -> P (scanArgs st toks).
Proof.
  intros Hstep. induction n as [| n IH]; intros toks st Hlen HP.
  - destruct toks; [exact HP | simpl in Hlen; lia].
  - destruct toks as [| t rest]; [exact HP |].
    simpl in Hlen. rewrite scanArgs_cons. destruct (consumes_next t).
    + destruct rest as [| a rest'].
      * now apply Hstep.
      * apply IH; [simpl in Hlen; lia | now apply Hstep].
    + apply IH; [lia | now apply Hstep].
Qed.

Lemma scanArgs_keeps (A : Type) (proj : pstate -> A) (Q : string -> bool) :
  (forall t arg st, Q t = true -> proj (handle t arg st) = proj st) ->
  forall (n : nat) (toks : list string) (st : pstate),
    List.length toks <= n ->
    forallb Q toks = true ->
    proj (scanArgs st toks) = proj st.
Proof.
  intros Hstep. induction n as [| n IH]; intros toks st Hlen Hall.
  - destruct toks; [reflexivity | simpl in Hlen; lia].
  - destruct toks as [| t rest]; [reflexivity |].
    simpl in Hlen. simpl in Hall. apply andb_true_iff in Hall.
    destruct Hall as [Ht Hrest].
    rewrite scanArgs_cons. destruct (consumes_next t).
    + destruct rest as [| a rest'].
      * now apply Hstep.
      * simpl in Hrest. apply andb_true_iff in Hrest.
        rewrite IH by (try tauto; simpl in Hlen; lia). now apply Hstep.
    + rewrite IH by (try assumption; lia). now apply Hstep.
Qed.

(** A run of tokens in which every argument-taking flag has its argument
    is scanned on its own: the loop over [pre ++ suf] is the loop over
    [suf] started from the state the loop over [pre] ends in. *)
Lemma scanArgs_app_bounded (n : nat) :
  forall (pre suf : list string) (st : pstate),
    List.length pre <= n ->
    complete pre = true ->
    scanArgs st (pre ++ suf) = scanArgs (scanArgs st pre) suf.
Proof.
  induction n as [| n IH]; intros pre suf st Hlen Hc.
  - destruct pre; [reflexivity | simpl in Hlen; lia].
  - destruct pre as [| t rest]; [reflexivity |].
    simpl in Hlen. simpl in Hc.
    change ((t :: rest) ++ suf)%list with (t :: (rest ++ suf))%list.
    rewrite !scanArgs_cons. destruct (consumes_next t).
    + destruct rest as [| a rest']; [discriminate Hc |].
      change ((a :: rest') ++ suf)%list with (a :: (rest' ++ suf))%list.
      apply IH; [simpl in Hlen; lia | exact Hc].
    + apply IH; [lia | exact Hc].
Qed.

Lemma scanArgs_app (pre suf : list string) (st : pstate) :
  complete pre = true ->
  scanArgs st (pre ++ suf) = scanArgs (scanArgs st pre) suf.
Proof. apply (scanArgs_app_bounded (List.length pre)). lia. Qed.

Ltac split_orb_false H :=
  repeat match type of H with
         | (_ || _) = false =>
             let H1 := fresh "Hf" in
             apply orb_false_iff in H; destruct H as [H H1]
         end.

Lemma handle_keeps_body (t : string) (arg : option string) (st : pstate) :
  negb (sets_body t) = true -> st_body (handle t arg st) = st_body st.
Proof.
  intros H. apply negb_true_iff in H. unfold sets_body in H.
  split_orb_false H. unfold handle. rewrite H, Hf, Hf0.
  repeat match goal with
         | |- context [if is_one_of t ?l then _ else _] =>
             destruct (is_one_of t l)
         end;
    try reflexivity.
  - destruct (indexOf ":" (or_empty arg)); reflexivity.
  - destruct (indexOf ":" (or_empty arg)); reflexivity.
  - destruct (negb (startsWith "-" t)); [| reflexivity].
    destruct (negb (truthy (Some (st_url st)))); reflexivity.
Qed.

Lemma handle_keeps_headers (t : string) (arg : option string) (st : pstate) :
  negb (writes_headers t) = true ->
  st_headers (handle t arg st) = st_headers st.
Proof.
  intros H. apply negb_true_iff in H. unfold writes_headers in H.
  split_orb_false H. unfold handle. rewrite H, Hf, Hf0, Hf1, Hf2.
  repeat match goal with
         | |- context [if is_one_of t ?l then _ else _] =>
             destruct (is_one_of t l)
         end;
    try reflexivity.
  - destruct (indexOf ":" (or_empty arg)); reflexivity.
  - destruct (negb (truthy (st_body st))); reflexivity.
  - destruct (negb (startsWith "-" t)); [| reflexivity].
    destruct (negb (truthy (Some (st_url st)))); reflexivity.
Qed.

Lemma data_consumes (d : string) :
  is_one_of d data_flags = true -> consumes_next d = true.
Proof.
  intros H. destruct (data_flag_cases d H) as [E | [E | [E | [E | E]]]];
    subst; reflexivity.
Qed.

Lemma handle_data (d : string) (arg : option string) (st : pstate) :
  is_one_of d data_flags = true ->
  handle d arg st = set_body (or_empty arg) st.
Proof.
  intros H. destruct (data_flag_cases d H) as [E | [E | [E | [E | E]]]];
    subst; reflexivity.
Qed.

(** The body of the request is the argument of the last data flag: a data
    flag that stands at a token boundary sets the body, whatever was set
    before, and the tokens after it keep it when none of them is a data,
    json or form flag. *)
Theorem last_data_flag_wins
    (raw c d a : string) (pre post : list string) (p : ParsedCurl) :
  tokenizeCurl raw = c :: (pre ++ d :: a :: post)%list ->
  complete pre = true ->
  is_one_of d data_flags = true ->
  forallb (fun t => negb (sets_body t)) post = true ->
  parseCurl raw = Some p ->
  body p = Some a.
Proof.
  intros Htok Hpre Hd Hpost Hp.
  apply parse_some_state in Hp. destruct Hp as [c' [rest [Htok' Hf]]].
  rewrite Htok in Htok'. injection Htok' as <- <-.
  apply finish_fields in Hf. destruct Hf as [_ [Hb _]]. rewrite Hb.
  rewrite scanArgs_app by assumption.
  rewrite scanArgs_consuming by now apply data_consumes.
  rewrite (scanArgs_keeps _ st_body (fun t => negb (sets_body t))
             handle_keeps_body (List.length post)) by (try assumption; lia).
  now rewrite handle_data.
Qed.

Lemma last_data_flag_wins_witness :
  exists p,
    parseCurl "curl -d first https://a.test -F ignored --data second -k" = Some p
    /\ body p = Some "second".
Proof.
  eexists. split; [vm_compute; reflexivity |].
  match goal with
  | |- body ?p = _ =>
      apply (last_data_flag_wins
               "curl -d first https://a.test -F ignored --data second -k"
               "curl" "--data" "second"
               ["-d"; "first"; "https://a.test"; "-F"; "ignored"] ["-k"] p);
        reflexivity
  end.
Defined.

(** A header flag that stands at a token boundary, with a colon in its
    argument and a name other than [__proto__], decides the value stored
    under that name, whatever was stored before, when no later token
    writes into the headers. *)
Theorem last_header_flag_wins
    (raw c f arg : string) (colon : nat) (pre post : list string)
    (p : ParsedCurl) :
  tokenizeCurl raw = c :: (pre ++ f :: arg :: post)%list ->
  complete pre = true ->
  is_one_of f header_flags = true ->
  indexOf ":" arg = Some colon ->
  trim (slice_to colon arg) <> proto_name ->
  forallb (fun t => negb (writes_headers t)) post = true ->
  parseCurl raw = Some p ->
  obj_get (trim (slice_to colon arg)) (headers p)
  = Some (trim (slice_from (colon + 1) arg)).
Proof.
  intros Htok Hpre Hf Hcolon Hname Hpost Hp.
  apply parse_some_state in Hp. destruct Hp as [c' [rest [Htok' Hfin]]].
  rewrite Htok in Htok'. injection Htok' as <- <-.
  apply finish_fields in Hfin. destruct Hfin as [Hh _]. rewrite Hh.
  rewrite scanArgs_app by assumption.
  destruct (header_with_colon_stores (scanArgs init_state pre) f arg post
              colon Hf Hcolon) as [Hscan Hget].
  rewrite Hscan.
  rewrite (scanArgs_keeps _ st_headers (fun t => negb (writes_headers t))
             handle_keeps_headers (List.length post)) by (try assumption; lia).
  now apply Hget.
Qed.

Lemma last_header_flag_wins_witness :
  exists p,
    parseCurl "curl https://a.test -H 'A: 1' -H 'B: x' --header ' A :  2 ' -k"
    = Some p
    /\ obj_get "A" (headers p) = Some "2".
Proof.
  eexists. split; [vm_compute; reflexivity |].
  match goal with
  | |- obj_get _ (headers ?p) = _ =>
      apply (last_header_flag_wins
               "curl https://a.test -H 'A: 1' -H 'B: x' --header ' A :  2 ' -k"
               "curl" "--header" " A :  2 " 3
               ["https://a.test"; "-H"; "A: 1"; "-H"; "B: x"] ["-k"] p);
        try reflexivity
  end.
  discriminate.
Defined.

(** A token that starts with a dash and is not one of the flags that take
    an argument (an ignored flag or an unknown one) changes nothing and
    consumes nothing: the token after it is scanned as any other, so the
    value of an unknown flag is read as a positional token. *)
Theorem dash_token_without_argument_skipped
    (st : pstate) (t : string) (arg : option string) (rest : list string) :
  startsWith "-" t = true ->
  consumes_next t = false ->
  handle t arg st = st /\ scanArgs st (t :: rest) = scanArgs st rest.
Proof.
  intros Hd Hc.
  assert (Hh : forall a, handle t a st = st).
  { intros a. unfold consumes_next in Hc. split_orb_false Hc.
    unfold handle. rewrite Hc, Hf, Hf0, Hf1, Hf2, Hf3, Hf4, Hf5, Hf6.
    destruct (is_one_of t ignored_flags); [reflexivity |].
    now rewrite Hd. }
  split; [apply Hh |].
  rewrite scanArgs_cons, Hc. now rewrite Hh.
Qed.

Lemma dash_token_without_argument_skipped_witness :
  handle "--max-time" None init_state = init_state
  /\ scanArgs init_state ["--max-time"; "30"; "https://a.test"]
     = scanArgs init_state ["30"; "https://a.test"].
Proof.
  apply (dash_token_without_argument_skipped init_state "--max-time" None
           ["30"; "https://a.test"]); reflexivity.
Defined.

(** ** Credentials *)

Lemma slice_rejoin (c : ascii) (s : string) (n : nat) :
  indexOf c s = Some n ->
  slice_to n s ++ String c (slice_from (n + 1) s) = s
  /\ indexOf c (slice_to n s) = None.
Proof.
  revert n. induction s as [| a r IH]; intros n H; [discriminate H |].
  simpl in H. destruct (Ascii.eqb a c) eqn:E.
  - injection H as <-. apply Ascii.eqb_eq in E. subst a. now split.
  - destruct (indexOf c r) as [m |] eqn:Er; [| discriminate H].
    injection H as <-. destruct (IH m eq_refl) as [H1 H2].
    split.
    + simpl. now rewrite H1.
    + simpl. rewrite E, H2. reflexivity.
Qed.

Lemma user_flag_cases (f : string) :
  is_one_of f user_flags = true -> f = "-u" \/ f = "--user".
Proof.
  rewrite is_one_of_in. simpl. intuition.
Qed.

(** The credentials flag splits its argument at the first colon: the user
    part holds no colon, and user, colon and password put together again
    (as the fetch and Node.js targets do before encoding) give the argument
    back, or the argument followed by a colon when it had none. *)
Theorem credentials_split_rejoin (f creds : string) (st : pstate) :
  is_one_of f user_flags = true ->
  exists a,
    st_auth (handle f (Some creds) st) = Some a
    /\ indexOf ":" (user a) = None
    /\ user a ++ ":" ++ password a
       = match indexOf ":" creds with
         | Some _ => creds
         | None => creds ++ ":"
         end.
Proof.
  intros Hf.
  assert (Hh : handle f (Some creds) st =
               match indexOf ":" creds with
               | Some idx =>
                   set_auth (mkAuth (slice_to idx creds)
                                    (slice_from (idx + 1) creds)) st
               | None => set_auth (mkAuth creds EmptyString) st
               end).
  { destruct (user_flag_cases f Hf); subst; reflexivity. }
  rewrite Hh. destruct (indexOf ":" creds) as [idx |] eqn:E.
  - destruct (slice_rejoin ":" creds idx E) as [H1 H2].
    eexists. split; [reflexivity |]. simpl. split; assumption.
  - eexists. split; [reflexivity |]. simpl. split; [exact E | reflexivity].
Qed.

Lemma credentials_split_rejoin_witness :
  exists a,
    st_auth (handle "-u" (Some "admin:s3:cret") init_state) = Some a
    /\ indexOf ":" (user a) = None
    /\ user a ++ ":" ++ password a = "admin:s3:cret".
Proof.
  apply (credentials_split_rejoin "-u" "admin:s3:cret" init_state).
  reflexivity.
Defined.

(** ** Invariants of a parsed request *)

Lemma positionals_in_bounded (n : nat) :
  forall (toks : list string) (u : string),
    List.length toks <= n ->
    In u (positionals toks) -> In u toks /\ startsWith "-" u = false.
Proof.
  induction n as [| n IH]; intros toks u Hlen Hin.
  - destruct toks; [contradiction Hin | simpl in Hlen; lia].
  - destruct toks as [| t rest]; [contradiction Hin |].
    simpl in Hlen. rewrite positionals_cons in Hin.
    destruct (consumes_next t).
    + destruct rest as [| a rest']; [contradiction Hin |].
      apply IH in Hin; [| simpl in Hlen; lia].
      destruct Hin as [Hin Hd]. split; [right; right; exact Hin | exact Hd].
    + destruct (startsWith "-" t) eqn:Ed.
      * apply IH in Hin; [| lia]. destruct Hin as [Hin Hd].
        split; [right; exact Hin | exact Hd].
      * destruct Hin as [<- | Hin].
        -- split; [now left | exact Ed].
        -- apply IH in Hin; [| lia]. destruct Hin as [Hin Hd].
           split; [right; exact Hin | exact Hd].
Qed.

(** The URL of a parsed request is never empty, never starts with a dash,
    and is one of the tokens after the command word. *)
Theorem parsed_url_invariant (raw : string) (p : ParsedCurl) :
  parseCurl raw = Some p ->
  url p <> EmptyString
  /\ startsWith "-" (url p) = false
  /\ In (url p) (tl (tokenizeCurl raw)).
Proof.
  intros Hp. apply parse_some_state in Hp.
  destruct Hp as [c [rest [Htok Hf]]]. rewrite Htok. simpl tl.
  apply finish_some_url in Hf. destruct Hf as [Hu Hne].
  rewrite Hu. split; [exact Hne |].
  rewrite scanArgs_url in *.
  destruct (find non_empty (positionals rest)) as [u |] eqn:E;
    [| now contradiction Hne].
  simpl. apply find_some in E. destruct E as [Hin _].
  apply (positionals_in_bounded (List.length rest)) in Hin; [| lia].
  destruct Hin as [Hin Hd]. now split.
Qed.

Lemma parsed_url_invariant_witness :
  exists p,
    parseCurl "curl -H 'A: 1' --unknown https://a.test -d x" = Some p
    /\ url p <> EmptyString
    /\ startsWith "-" (url p) = false
    /\ In (url p) ["-H"; "A: 1"; "--unknown"; "https://a.test"; "-d"; "x"].
Proof.
  eexists. split; [vm_compute; reflexivity |].
  match goal with
  | |- url ?p <> _ /\ _ =>
      exact (parsed_url_invariant
               "curl -H 'A: 1' --unknown https://a.test -d x" p eq_refl)
  end.
Defined.

Lemma upper_str_idempotent (c : ascii) :
  toUpperCase (upper_str c) = upper_str c.
Proof.
  destruct c as [b0 b1 b2 b3 b4 b5 b6 b7].
  destruct b0, b1, b2, b3, b4, b5, b6, b7; reflexivity.
Qed.

Lemma toUpperCase_app (s t : string) :
  toUpperCase (s ++ t) = toUpperCase s ++ toUpperCase t.
Proof.
  induction s as [| c r IH]; [reflexivity |].
  change (upper_str c ++ toUpperCase (r ++ t)
          = (upper_str c ++ toUpperCase r) ++ toUpperCase t).
  now rewrite IH, sapp_assoc.
Qed.

Lemma toUpperCase_idempotent (s : string) :
  toUpperCase (toUpperCase s) = toUpperCase s.
Proof.
  induction s as [| c r IH]; [reflexivity |].
  change (toUpperCase (upper_str c ++ toUpperCase r)
          = upper_str c ++ toUpperCase r).
  now rewrite toUpperCase_app, upper_str_idempotent, IH.
Qed.

Lemma handle_method_upper (t : string) (arg : option string) (st : pstate) :
  toUpperCase (st_method st) = st_method st ->
  toUpperCase (st_method (handle t arg st)) = st_method (handle t arg st).
Proof.
  intros H. destruct (is_one_of t method_flags) eqn:E.
  - unfold handle. rewrite E. simpl.
    destruct arg as [a |]; [apply toUpperCase_idempotent | reflexivity].
  - now rewrite handle_keeps_method.
Qed.

(** The method of a parsed request is never empty and is in upper case,
    whether it was given by a method flag or inferred. *)
Theorem parsed_method_invariant (raw : string) (p : ParsedCurl) :
  parseCurl raw = Some p ->
  method p <> EmptyString /\ toUpperCase (method p) = method p.
Proof.
  intros Hp. apply parse_some_state in Hp.
  destruct Hp as [c [rest [_ Hf]]]. apply finish_fields in Hf.
  destruct Hf as [_ [_ [_ [Hm _]]]]. rewrite Hm.
  destruct (st_method (scanArgs init_state rest) =? EmptyString) eqn:E.
  - destruct (truthy (st_body (scanArgs init_state rest)));
      split; (discriminate || reflexivity).
  - split; [now apply String.eqb_neq |].
    apply (scanArgs_invariant
             (fun st => toUpperCase (st_method st) = st_method st)
             handle_method_upper (List.length rest)); [lia | reflexivity].
Qed.

Lemma parsed_method_invariant_witness :
  exists p,
    parseCurl "curl -X patch https://a.test" = Some p
    /\ method p = "PATCH"
    /\ method p <> EmptyString /\ toUpperCase (method p) = method p.
Proof.
  eexists. split; [vm_compute; reflexivity |].
  split; [reflexivity |].
  match goal with
  | |- method ?p <> _ /\ _ =>
      exact (parsed_method_invariant "curl -X patch https://a.test" p eq_refl)
  end.
Defined.

(** Without a method flag among the tokens, the method is [POST] when the
    body is a non-empty string and [GET] when the body is absent or the
    empty string. *)
Theorem method_inferred_from_body (raw c : string) (rest : list string)
    (p : ParsedCurl) :
  tokenizeCurl raw = c :: rest ->
  forallb (fun t => negb (is_one_of t method_flags)) rest = true ->
  parseCurl raw = Some p ->
  method p = if truthy (body p) then "POST" else "GET".
Proof.
  intros Htok Hno Hp. apply parse_some_state in Hp.
  destruct Hp as [c' [rest' [Htok' Hf]]].
  rewrite Htok in Htok'. injection Htok' as <- <-.
  apply finish_fields in Hf. destruct Hf as [_ [Hb [_ [Hm _]]]].
  rewrite Hm, Hb.
  rewrite (no_method_flag_bounded (List.length rest)) by (try assumption; lia).
  reflexivity.
Qed.

Lemma method_inferred_from_body_witness :
  exists p q,
    parseCurl "curl https://a.test -d x" = Some p /\ method p = "POST"
    /\ parseCurl "curl https://a.test -k" = Some q /\ method q = "GET".
Proof.
  eexists. eexists.
  split; [vm_compute; reflexivity |].
  split.
  - match goal with
    | |- method ?p = _ =>
        exact (method_inferred_from_body "curl https://a.test -d x" "curl"
                 ["https://a.test"; "-d"; "x"] p eq_refl eq_refl eq_refl)
    end.
  - split; vm_compute; reflexivity.
Defined.

Lemma obj_put_keys_in (k v x : string) (o : object) :
  In x (map fst (obj_put k v o)) <-> x = k \/ In x (map fst o).
Proof.
  induction o as [| [k' v'] r IH]; simpl.
  - intuition.
  - destruct (k' =? k) eqn:E; simpl.
    + apply String.eqb_eq in E. subst k'. intuition.
    + rewrite IH. intuition.
Qed.

Lemma obj_put_nodup (k v : string) (o : object) :
  NoDup (map fst o) -> NoDup (map fst (obj_put k v o)).
Proof.
  induction o as [| [k' v'] r IH]; simpl; intros H.
  - constructor; [intros [] | constructor].
  - inversion H as [| x l Hnin Hnd]; subst.
    destruct (k' =? k) eqn:E; simpl.
    + now constructor.
    + constructor; [| now apply IH].
      rewrite obj_put_keys_in. intros [-> | Hin].
      * rewrite String.eqb_refl in E. discriminate E.
      * contradiction.
Qed.

Lemma all_chars_trimStart (P : ascii -> bool) (s : string) :
  all_chars P s = true -> all_chars P (trimStart s) = true.
Proof.
  induction s as [| c r IH]; simpl; [reflexivity |].
  intros H. destruct (is_space c); [| exact H].
  apply andb_true_iff in H. now apply IH.
Qed.

Lemma all_chars_trimEnd (P : ascii -> bool) (s : string) :
  all_chars P s = true -> all_chars P (trimEnd s) = true.
Proof.
  induction s as [| c r IH]; simpl; [reflexivity |].
  intros H. apply andb_true_iff in H. destruct H as [Hc Hr].
  specialize (IH Hr). destruct (trimEnd r) as [| d r'].
  - destruct (is_space c); [reflexivity |]. simpl. now rewrite Hc.
  - simpl. rewrite Hc. exact IH.
Qed.

Lemma slice_to_before (c : ascii) (s : string) (n : nat) :
  indexOf c s = Some n ->
  all_chars (fun a => negb (Ascii.eqb a c)) (slice_to n s) = true.
Proof.
  revert n. induction s as [| a r IH]; intros n H; [discriminate H |].
  simpl in H. destruct (Ascii.eqb a c) eqn:E.
  - injection H as <-. reflexivity.
  - destruct (indexOf c r) as [m |] eqn:Er; [| discriminate H].
    injection H as <-. simpl. rewrite E. now apply IH.
Qed.

Lemma all_chars_no_index (c : ascii) (s : string) :
  all_chars (fun a => negb (Ascii.eqb a c)) s = true -> indexOf c s = None.
Proof.
  induction s as [| a r IH]; simpl; [reflexivity |].
  intros H. apply andb_true_iff in H. destruct H as [Ha Hr].
  apply negb_true_iff in Ha. rewrite Ha. now rewrite IH.
Qed.

(** What every name in the headers of a parse satisfies. *)
Lemma header_name_of_flag (hdr : string) (colon : nat) :
  indexOf ":" hdr = Some colon ->
  trim (trim (slice_to colon hdr)) = trim (slice_to colon hdr)
  /\ indexOf ":" (trim (slice_to colon hdr)) = None.
Proof.
  intros H. split; [apply trim_idempotent |].
  apply all_chars_no_index. unfold trim.
  apply all_chars_trimEnd, all_chars_trimStart.
  now apply slice_to_before.
Qed.

Lemma obj_set_names (k v : string) (o : object) :
  trim k = k -> indexOf ":" k = None ->
  (NoDup (map fst o)
   /\ forall x, In x (map fst o) ->
                x <> proto_name /\ trim x = x /\ indexOf ":" x = None) ->
  NoDup (map fst (obj_set k v o))
  /\ forall x, In x (map fst (obj_set k v o)) ->
               x <> proto_name /\ trim x = x /\ indexOf ":" x = None.
Proof.
  intros Ht Hc [Hnd Hall]. unfold obj_set.
  destruct (k =? proto_name) eqn:E; [now split |].
  apply String.eqb_neq in E. split; [now apply obj_put_nodup |].
  intros x Hin. apply obj_put_keys_in in Hin.
  destruct Hin as [-> | Hin]; [now repeat split | now apply Hall].
Qed.

Lemma handle_header_names (t : string) (arg : option string) (st : pstate) :
  (NoDup (map fst (st_headers st))
   /\ forall x, In x (map fst (st_headers st)) ->
                x <> proto_name /\ trim x = x /\ indexOf ":" x = None) ->
  NoDup (map fst (st_headers (handle t arg st)))
  /\ forall x, In x (map fst (st_headers (handle t arg st))) ->
               x <> proto_name /\ trim x = x /\ indexOf ":" x = None.
Proof.
  intros H. unfold handle.
  repeat match goal with
         | |- context [if is_one_of t ?l then _ else _] =>
             destruct (is_one_of t l)
         end;
    try exact H;
    try (apply obj_set_names; [reflexivity | reflexivity | exact H]).
  - destruct (indexOf ":" (or_empty arg)) as [colon |] eqn:E; [| exact H].
    destruct (header_name_of_flag _ _ E) as [H1 H2].
    now apply obj_set_names.
  - destruct (indexOf ":" (or_empty arg)); exact H.
  - apply obj_set_names; [reflexivity | reflexivity |].
    apply obj_set_names; [reflexivity | reflexivity | exact H].
  - destruct (negb (truthy (st_body st))); exact H.
  - destruct (negb (startsWith "-" t)); [| exact H].
    destruct (negb (truthy (Some (st_url st)))); exact H.
Qed.

(** The headers of a parsed request never hold a name twice, and every
    name in them is trimmed, holds no colon and is not [__proto__]. *)
Theorem parsed_headers_invariant (raw : string) (p : ParsedCurl) :
  parseCurl raw = Some p ->
  NoDup (map fst (headers p))
  /\ forall x, In x (map fst (headers p)) ->
               x <> proto_name /\ trim x = x /\ indexOf ":" x = None.
Proof.
  intros Hp. apply parse_some_state in Hp.
  destruct Hp as [c [rest [_ Hf]]]. apply finish_fields in Hf.
  destruct Hf as [Hh _]. rewrite Hh.
  apply (scanArgs_invariant
           (fun st =>
              NoDup (map fst (st_headers st))
              /\ forall x, In x (map fst (st_headers st)) ->
                           x <> proto_name /\ trim x = x
                           /\ indexOf ":" x = None)
           handle_header_names (List.length rest)); [lia |].
  split; [constructor | intros x []].
Qed.

Lemma parsed_headers_invariant_witness :
  exists p,
    parseCurl
      "curl https://a.test -H ' A : 1' -H 'A:2' --json x -b c=d -H '__proto__: z'"
    = Some p
    /\ map fst (headers p) = ["A"; "Content-Type"; "Accept"; "Cookie"]
    /\ NoDup (map fst (headers p)).
Proof.
  eexists. split; [vm_compute; reflexivity |].
  split; [reflexivity |].
  match goal with
  | |- NoDup (map fst (headers ?p)) =>
      exact (proj1 (parsed_headers_invariant
        "curl https://a.test -H ' A : 1' -H 'A:2' --json x -b c=d -H '__proto__: z'"
        p eq_refl))
  end.
Defined.

(** ** The order in which headers are listed *)








(** ** String literals *)

Lemma json_escape_printable (c : ascii) :
  all_chars printable (json_escape c) = true.
Proof.
  destruct c as [b0 b1 b2 b3 b4 b5 b6 b7].
  destruct b0, b1, b2, b3, b4, b5, b6, b7; reflexivity.
Qed.

(** The literal that [JSON.stringify] gives for a string holds no control
    character, so no line break: it stays on the line it is pushed on. *)
Theorem jsStringify_no_control (s : string) :
  all_chars printable (jsStringify s) = true
  /\ all_chars not_lf (jsStringify s) = true.
Proof.
  assert (H : all_chars printable (jsStringify s) = true).
  { unfold jsStringify. rewrite !all_chars_app.
    assert (He : all_chars printable (json_escape_all s) = true).
    { induction s as [| c r IH]; [reflexivity |].
      simpl. now rewrite all_chars_app, json_escape_printable, IH. }
    rewrite He. reflexivity. }
  split; [exact H |].
  apply (all_chars_impl printable not_lf); [| exact H].
  intros c Hc. unfold not_lf. destruct (Ascii.eqb c ch_lf) eqn:E; [| reflexivity].
  apply Ascii.eqb_eq in E. subst c. discriminate Hc.
Qed.

Lemma json_unescape_step (c : ascii) (r : string) :
  json_unescape_all (json_escape c ++ r) =
  match json_unescape_all r with
  | Some t => Some (String c t)
  | None => None
  end.
Proof.
  destruct c as [b0 b1 b2 b3 b4 b5 b6 b7].
  destruct b0, b1, b2, b3, b4, b5, b6, b7; reflexivity.
Qed.

Lemma json_unescape_escape (s : string) :
  json_unescape_all (json_escape_all s) = Some s.
Proof.
  induction s as [| c r IH]; [reflexivity |].
  simpl. now rewrite json_unescape_step, IH.
Qed.

Lemma slength_app (a b : string) :
  String.length (a ++ b) = String.length a + String.length b.
Proof.
  induction a as [| x a IH]; simpl; [reflexivity | now rewrite IH].
Qed.

Lemma sapp_cancel_r (a b c : string) : a ++ c = b ++ c -> a = b.
Proof.
  intros H.
  assert (Hlen : String.length a = String.length b).
  { apply (f_equal String.length) in H.
    rewrite !slength_app in H. lia. }
  revert b H Hlen. induction a as [| x a IH]; intros b H Hlen.
  - destruct b; [reflexivity | discriminate Hlen].
  - destruct b as [| y b]; [discriminate Hlen |].
    simpl in H. injection H as -> H. f_equal.
    apply IH; [exact H | simpl in Hlen; lia].
Qed.

(** The rendering of a string as a literal loses nothing: the escapes can
    be read back, and two strings have the same literal only when they are
    the same string. *)
Theorem jsStringify_faithful (a b : string) :
  json_unescape_all (json_escape_all a) = Some a
  /\ (jsStringify a = jsStringify b <-> a = b).
Proof.
  split; [apply json_unescape_escape |].
  split; [| intros ->; reflexivity].
  unfold jsStringify. intros H. simpl in H. injection H as H.
  apply sapp_cancel_r in H.
  apply (f_equal json_unescape_all) in H.
  rewrite !json_unescape_escape in H. now injection H.
Qed.

(** ** Rendering of the body, of the port and of the header entries *)


(** ** Generated text is never empty *)

Lemma join_two (sep x y : string) (r : list string) :
  sep <> EmptyString -> join sep (x :: y :: r) <> EmptyString.
Proof.
  intros Hs H. change (join sep (x :: y :: r))
    with (x ++ sep ++ join sep (y :: r)) in H.
  apply (f_equal String.length) in H. rewrite !slength_app in H. simpl in H.
  destruct sep; [contradiction | simpl in H; lia].
Qed.

Lemma join_long (l : list string) :
  2 <= List.length l -> join lf l <> EmptyString.
Proof.
  destruct l as [| x [| y r]]; simpl List.length; try lia.
  intros _. apply join_two. discriminate.
Qed.

Lemma generateCode_nonempty
    (jr : nat -> string -> option string) (nu : string -> option URL)
    (p : ParsedCurl) (lang : Language) :
  generateCode jr nu p lang <> EmptyString.
Proof.
  destruct lang; unfold generateCode, generateJsFetch, generateJsAxios,
    generatePythonRequests, generateGo, generateNodeJs; apply join_long.
  - unfold generateJsFetch_lines. rewrite !length_app. simpl. lia.
  - unfold generateJsAxios_lines. rewrite !length_app. simpl. lia.
  - unfold generatePythonRequests_lines. rewrite !length_app. simpl. lia.
  - unfold generateGo_lines. rewrite !length_app. simpl. lia.
  - unfold generateNodeJs_lines. destruct (nu (url p)).
    + rewrite !length_app. simpl. lia.
    + simpl. lia.
Qed.

Lemma startsWith_self (p s : string) : startsWith p (p ++ s) = true.
Proof.
  induction p as [| c p IH]; simpl; [reflexivity |].
  now rewrite Ascii.eqb_refl, IH.
Qed.

Lemma includes_cons (p : string) (c : ascii) (r : string) :
  includes p (String c r) = startsWith p (String c r) || includes p r.
Proof. reflexivity. Qed.

Lemma includes_head (p s : string) : includes p (p ++ s) = true.
Proof.
  destruct (p ++ s) as [| c r] eqn:E.
  - destruct p; [reflexivity | discriminate E].
  - rewrite includes_cons, <- E, startsWith_self. reflexivity.
Qed.

Lemma includes_app_r (p a b : string) :
  includes p b = true -> includes p (a ++ b) = true.
Proof.
  intros H. induction a as [| c a IH]; [exact H |].
  change (String c a ++ b) with (String c (a ++ b)).
  rewrite includes_cons, IH. apply orb_true_r.
Qed.

Lemma join_has_break (l : list string) :
  2 <= List.length l -> includes lf (join lf l) = true.
Proof.
  destruct l as [| x [| y r]]; simpl List.length; try lia.
  intros _. change (join lf (x :: y :: r)) with (x ++ lf ++ join lf (y :: r)).
  apply includes_app_r, includes_head.
Qed.

Lemma generateCode_lines
    (jr : nat -> string -> option string) (nu : string -> option URL)
    (p : ParsedCurl) (lang : Language) :
  exists l, generateCode jr nu p lang = join lf l /\ 2 <= List.length l.
Proof.
  destruct lang; unfold generateCode, generateJsFetch, generateJsAxios,
    generatePythonRequests, generateGo, generateNodeJs;
    eexists; (split; [reflexivity |]).
  - unfold generateJsFetch_lines. rewrite !length_app. simpl. lia.
  - unfold generateJsAxios_lines. rewrite !length_app. simpl. lia.
  - unfold generatePythonRequests_lines. rewrite !length_app. simpl. lia.
  - unfold generateGo_lines. rewrite !length_app. simpl. lia.
  - unfold generateNodeJs_lines. destruct (nu (url p)).
    + rewrite !length_app. simpl. lia.
    + simpl. lia.
Qed.

(** Whatever the request and the target, [generateCode] returns text that
    is not empty and holds a line break: at least two lines. *)
Theorem generateCode_never_empty
    (jr : nat -> string -> option string) (nu : string -> option URL)
    (p : ParsedCurl) (lang : Language) :
  generateCode jr nu p lang <> EmptyString
  /\ includes lf (generateCode jr nu p lang) = true.
Proof.
  destruct (generateCode_lines jr nu p lang) as [l [E Hl]]. rewrite E.
  split; [now apply join_long | now apply join_has_break].
Qed.

(** ** The sample table *)

Lemma convert_no_error
    (jr : nat -> string -> option string) (nu : string -> option URL)
    (raw : string) (lang : Language) :
  parseCurl raw <> None ->
  snd (convert jr nu raw lang) = EmptyString
  /\ fst (convert jr nu raw lang) <> EmptyString.
Proof.
  intros H. destruct (parseCurl raw) as [p |] eqn:E; [| contradiction].
  destruct (convert_cases jr nu raw lang) as [_ [_ [Hc _]]].
  rewrite (Hc p E). simpl. split; [reflexivity |].
  apply generateCode_nonempty.
Qed.

(** Every entry of the sample table converts: whatever the target, loading
    a sample shows generated code and no error message.  The five samples
    parse to the methods GET, POST, PUT, GET and POST; the second and third
    are classified as JSON, the fifth as form data, the fourth carries
    credentials. *)
Theorem samples_convert :
  map (fun s =>
         option_map
           (fun p => (url p, method p, isJson p, isFormData p, auth p))
           (parseCurl (snd s)))
      SAMPLES
  = [Some ("https://api.example.com/users", "GET", false, false, None);
     Some ("https://api.example.com/users", "POST", true, false, None);
     Some ("https://api.example.com/users/42", "PUT", true, false, None);
     Some ("https://api.example.com/secure", "GET", false, false,
           Some (mkAuth "username" "password"));
     Some ("https://api.example.com/login", "POST", false, true, None)]
  /\ Forall
       (fun s =>
          forall (jr : nat -> string -> option string)
                 (nu : string -> option URL) (lang : Language),
            snd (convert jr nu (snd s) lang) = EmptyString
            /\ fst (convert jr nu (snd s) lang) <> EmptyString)
       SAMPLES.
Proof.
  split; [vm_compute; reflexivity |].
  unfold SAMPLES.
  repeat (apply Forall_cons;
          [intros jr nu lang; apply convert_no_error; vm_compute; discriminate |]).
  apply Forall_nil.
Qed.

(** ** Double-quoted runs *)

Lemma dq_escape_no_lf (t : string) :
  all_chars not_lf t = true -> all_chars not_lf (dq_escape t) = true.
Proof.
  induction t as [| c r IH]; simpl; [reflexivity |].
  intros H. apply andb_true_iff in H. destruct H as [Hc Hr].
  destruct (Ascii.eqb c ch_dq || Ascii.eqb c ch_bs); simpl;
    rewrite Hc, (IH Hr); reflexivity.
Qed.

Lemma scan_double_escaped (t tok rest : string) :
  scan Double tok (dq_escape t ++ String ch_dq rest)
  = (tok ++ t) :: scan Between EmptyString rest.
Proof.
  revert tok. induction t as [| c r IH]; intros tok.
  - simpl. now rewrite sapp_nil_r.
  - simpl dq_escape.
    destruct (Ascii.eqb c ch_dq) eqn:Eq.
    + apply Ascii.eqb_eq in Eq. subst c. simpl.
      rewrite IH. unfold push_char. now rewrite sapp_assoc.
    + destruct (Ascii.eqb c ch_bs) eqn:Eb.
      * apply Ascii.eqb_eq in Eb. subst c. simpl.
        rewrite IH. unfold push_char. now rewrite sapp_assoc.
      * simpl. rewrite Eq, Eb, IH. unfold push_char. now rewrite sapp_assoc.
Qed.

(** After plain words, a value free of line feeds that is written between
    double quotes, with a backslash before each double quote and each
    backslash, is read back as one token equal to that value. *)
Theorem tokenize_double_quoted (ws : list string) (t : string) :
  forallb plain_word ws = true ->
  all_chars not_lf t = true ->
  tokenizeCurl
    (spaced ws ++ String ch_dq (dq_escape t ++ String ch_dq EmptyString))
  = (ws ++ [t])%list.
Proof.
  intros Hws Hlf.
  rewrite (tokenize_spaced_tail ws ch_dq ch_dq).
  - f_equal. simpl. apply scan_double_escaped.
  - exact Hws.
  - reflexivity.
  - change (String ch_dq (dq_escape t ++ String ch_dq EmptyString))
      with (String ch_dq EmptyString
            ++ (dq_escape t ++ String ch_dq EmptyString)).
    rewrite !last_char_app. reflexivity.
  - reflexivity.
  - simpl. rewrite all_chars_app, (dq_escape_no_lf t Hlf). reflexivity.
Qed.

Lemma tokenize_double_quoted_witness :
  tokenizeCurl
    ("curl https://a.test -d " ++ dq ++ "say \" ++ dq ++ "hi\" ++ dq
     ++ " to C:\\dir" ++ dq)
  = ["curl"; "https://a.test"; "-d";
     "say " ++ dq ++ "hi" ++ dq ++ " to C:\dir"].
Proof.
  apply (tokenize_double_quoted ["curl"; "https://a.test"; "-d"]
           ("say " ++ dq ++ "hi" ++ dq ++ " to C:\dir"));
    reflexivity.
Defined.

(** ** Line breaks inside a command *)

Lemma replace_bs_lf_cons (c : ascii) (r : string) :
  replace_bs_lf (String c r) =
  match r with
  | String d r' =>
      if Ascii.eqb c ch_bs && Ascii.eqb d ch_lf
      then String ch_sp (replace_bs_lf r')
      else String c (replace_bs_lf r)
  | EmptyString => String c EmptyString
  end.
Proof. destruct r; reflexivity. Qed.

Lemma replace_bs_crlf_cons (c : ascii) (r : string) :
  replace_bs_crlf (String c r) =
  match r with
  | String d (String e r') =>
      if Ascii.eqb c ch_bs && Ascii.eqb d ch_cr && Ascii.eqb e ch_lf
      then String ch_sp (replace_bs_crlf r')
      else String c (replace_bs_crlf r)
  | _ => String c (replace_bs_crlf r)
  end.
Proof. destruct r as [| d [| e r']]; reflexivity. Qed.

Lemma replace_bs_lf_app (a : string) (c : ascii) (s : string) :
  all_chars not_lf a = true -> Ascii.eqb c ch_lf = false ->
  replace_bs_lf (a ++ String c s) = a ++ replace_bs_lf (String c s).
Proof.
  intros Ha Hc. induction a as [| x a IH]; [reflexivity |].
  simpl in Ha. apply andb_true_iff in Ha. destruct Ha as [_ Ha].
  specialize (IH Ha).
  destruct a as [| y a'].
  - change (String x EmptyString ++ String c s) with (String x (String c s)).
    rewrite (replace_bs_lf_cons x). cbv iota.
    rewrite Hc, andb_false_r. reflexivity.
  - assert (Hy : Ascii.eqb y ch_lf = false).
    { simpl in Ha. apply andb_true_iff in Ha. destruct Ha as [Hy _].
      now apply negb_true_iff in Hy. }
    change (String x (String y a') ++ String c s)
      with (String x (String y (a' ++ String c s))).
    rewrite (replace_bs_lf_cons x). cbv iota.
    rewrite Hy, andb_false_r.
    change (String y (a' ++ String c s)) with (String y a' ++ String c s).
    now rewrite IH.
Qed.

Lemma replace_bs_crlf_app (a : string) (c d : ascii) (s : string) :
  all_chars not_lf a = true ->
  Ascii.eqb c ch_lf = false -> Ascii.eqb d ch_lf = false ->
  replace_bs_crlf (a ++ String c (String d s))
  = a ++ replace_bs_crlf (String c (String d s)).
Proof.
  intros Ha Hc Hd. induction a as [| x a IH]; [reflexivity |].
  simpl in Ha. apply andb_true_iff in Ha. destruct Ha as [_ Ha].
  specialize (IH Ha).
  destruct a as [| y [| z a']].
  - change (String x EmptyString ++ String c (String d s))
      with (String x (String c (String d s))).
    rewrite (replace_bs_crlf_cons x). cbv iota.
    rewrite Hd, andb_false_r. reflexivity.
  - change (String x (String y EmptyString) ++ String c (String d s))
      with (String x (String y (String c (String d s)))).
    rewrite (replace_bs_crlf_cons x). cbv iota.
    rewrite Hc, andb_false_r.
    change (String y (String c (String d s)))
      with (String y EmptyString ++ String c (String d s)).
    now rewrite IH.
  - assert (Hz : Ascii.eqb z ch_lf = false).
    { simpl in Ha. apply andb_true_iff in Ha. destruct Ha as [_ Ha].
      apply andb_true_iff in Ha. destruct Ha as [Hz _].
      now apply negb_true_iff in Hz. }
    change (String x (String y (String z a')) ++ String c (String d s))
      with (String x (String y (String z (a' ++ String c (String d s))))).
    rewrite (replace_bs_crlf_cons x). cbv iota.
    rewrite Hz, andb_false_r.
    change (String y (String z (a' ++ String c (String d s))))
      with (String y (String z a') ++ String c (String d s)).
    now rewrite IH.
Qed.

(** Plain words joined by single spaces: no line feed, a last character
    that is not whitespace, and the words themselves as tokens. *)
Lemma join_plain_facts (ws : list string) :
  forallb plain_word ws = true -> ws <> [] ->
  all_chars not_lf (join " " ws) = true
  /\ (exists y, last_char (join " " ws) = Some y /\ is_space y = false)
  /\ forall t0, scan Between t0 (join " " ws) = ws.
Proof.
  intros H Hne. destruct (exists_last Hne) as [init [x Ex]]. subst ws.
  rewrite forallb_app in H. apply andb_true_iff in H. destruct H as [Hi Hx].
  simpl in Hx. rewrite andb_true_r in Hx. rewrite join_snoc.
  assert (Hall : all_chars not_space x = true).
  { destruct x as [| c r]; [discriminate Hx |]. simpl in Hx.
    repeat (apply andb_true_iff in Hx; destruct Hx as [Hx ?]).
    simpl. now rewrite Hx. }
  assert (Hlast : exists y, last_char x = Some y /\ is_space y = false).
  { destruct (last_char x) as [y |] eqn:El.
    - exists y. split; [reflexivity |].
      pose proof (last_char_all not_space x y Hall El) as Hy.
      now apply negb_true_iff in Hy.
    - apply last_char_none in El. subst x. discriminate Hx. }
  repeat split.
  - rewrite all_chars_app, (spaced_no_lf init Hi).
    now apply (all_chars_impl not_space not_lf x not_space_not_lf).
  - destruct Hlast as [y [Hy Hs]]. exists y.
    rewrite last_char_app, Hy. now split.
  - intros t0. rewrite scan_spaced by assumption. f_equal.
    pose proof (scan_plain_word x EmptyString EmptyString Hx) as Hs.
    rewrite sapp_nil_r in Hs. rewrite Hs.
    destruct x; [discriminate Hx | reflexivity].
Qed.

Lemma trim_framed (ws : list string) (c0 y : ascii) (r0 : string) :
  forallb plain_word ws = true -> is_space c0 = false ->
  last_char (String c0 r0) = Some y -> is_space y = false ->
  trim (spaced ws ++ String c0 r0) = spaced ws ++ String c0 r0.
Proof.
  intros Hws Hc0 Hl Hy.
  destruct (spaced_head ws c0 r0 Hws Hc0) as [c [r [E Hc]]].
  unfold trim. rewrite E.
  assert (Hs : trimStart (String c r) = String c r) by (simpl; now rewrite Hc).
  rewrite Hs. apply (trimEnd_id _ y); [| exact Hy].
  rewrite <- E, last_char_app, Hl. reflexivity.
Qed.

(** A command broken over two lines with a backslash at the end of the
    first, in either line-ending convention, has the tokens of the two
    lines put together: the break is read as a space. *)
Theorem tokenize_line_break (ws1 ws2 : list string) :
  forallb plain_word ws1 = true ->
  forallb plain_word ws2 = true ->
  ws2 <> [] ->
  tokenizeCurl (spaced ws1 ++ break_lf ++ "  " ++ join " " ws2)
  = (ws1 ++ ws2)%list
  /\ tokenizeCurl (spaced ws1 ++ break_crlf ++ "  " ++ join " " ws2)
     = (ws1 ++ ws2)%list.
Proof.
  intros H1 H2 Hne.
  destruct (join_plain_facts ws2 H2 Hne) as [Hlf [[y [Hy Hsy]] Hscan]].
  set (B := join " " ws2) in *.
  assert (Hn1 : all_chars not_lf (spaced ws1) = true) by now apply spaced_no_lf.
  assert (Hn2 : all_chars not_lf ("  " ++ B) = true) by (simpl; exact Hlf).
  assert (Hn3 : all_chars not_lf (spaced ws1 ++ String ch_sp ("  " ++ B)) = true).
  { rewrite all_chars_app, Hn1. simpl. exact Hlf. }
  assert (Hfinal : scan Between EmptyString
                     (spaced ws1 ++ String ch_sp ("  " ++ B))
                   = (ws1 ++ ws2)%list).
  { rewrite scan_spaced by assumption. f_equal. simpl. apply Hscan. }
  unfold tokenizeCurl. split.
  - change (spaced ws1 ++ break_lf ++ "  " ++ B)
      with (spaced ws1 ++ String ch_bs (String ch_lf ("  " ++ B))).
    rewrite (trim_framed ws1 ch_bs y _ H1 eq_refl)
      by (try exact Hsy;
          change (String ch_bs (String ch_lf ("  " ++ B)))
            with (String ch_bs (String ch_lf "  ") ++ B);
          rewrite last_char_app, Hy; reflexivity).
    rewrite replace_bs_lf_app by (try assumption; reflexivity).
    rewrite replace_bs_lf_cons. simpl andb. cbv iota.
    rewrite (replace_bs_lf_id _ Hn2).
    rewrite (replace_bs_crlf_id _ Hn3). exact Hfinal.
  - change (spaced ws1 ++ break_crlf ++ "  " ++ B)
      with (spaced ws1 ++ String ch_bs (String ch_cr (String ch_lf ("  " ++ B)))).
    rewrite (trim_framed ws1 ch_bs y _ H1 eq_refl)
      by (try exact Hsy;
          change (String ch_bs (String ch_cr (String ch_lf ("  " ++ B))))
            with (String ch_bs (String ch_cr (String ch_lf "  ")) ++ B);
          rewrite last_char_app, Hy; reflexivity).
    rewrite replace_bs_lf_app by (try assumption; reflexivity).
    assert (Hrl : replace_bs_lf
                    (String ch_bs (String ch_cr (String ch_lf ("  " ++ B))))
                  = String ch_bs (String ch_cr (String ch_lf ("  " ++ B)))).
    { rewrite replace_bs_lf_cons. simpl andb. cbv iota.
      rewrite replace_bs_lf_cons. simpl andb. cbv iota.
      rewrite replace_bs_lf_cons. simpl andb. cbv iota.
      change (String ch_sp (String ch_sp B)) with ("  " ++ B).
      now rewrite (replace_bs_lf_id _ Hn2). }
    rewrite Hrl.
    rewrite replace_bs_crlf_app by (try assumption; reflexivity).
    rewrite replace_bs_crlf_cons. simpl andb. cbv iota.
    rewrite (replace_bs_crlf_id _ Hn2). exact Hfinal.
Qed.

Lemma tokenize_line_break_witness :
  tokenizeCurl
    ("curl https://a.test " ++ break_lf ++ "  -X PUT")
  = ["curl"; "https://a.test"; "-X"; "PUT"]
  /\ tokenizeCurl
       ("curl https://a.test " ++ break_crlf ++ "  -X PUT")
     = ["curl"; "https://a.test"; "-X"; "PUT"].
Proof.
  apply (tokenize_line_break ["curl"; "https://a.test"] ["-X"; "PUT"]);
    [reflexivity | reflexivity | discriminate].
Defined.

(** ** The json flag *)

(** A json flag that stands at a token boundary, with no later token that
    writes into the headers or sets the body, gives a request whose body is
    the flag's argument, whose [Content-Type] and [Accept] are
    [application/json], and which is classified as JSON whatever the shape
    of that body. *)
Theorem json_flag_forces_json
    (raw c a : string) (pre post : list string) (p : ParsedCurl) :
  tokenizeCurl raw = c :: (pre ++ "--json" :: a :: post)%list ->
  complete pre = true ->
  forallb (fun t => negb (writes_headers t)) post = true ->
  forallb (fun t => negb (sets_body t)) post = true ->
  parseCurl raw = Some p ->
  isJson p = true
  /\ body p = Some a
  /\ obj_get "Content-Type" (headers p) = Some "application/json"
  /\ obj_get "Accept" (headers p) = Some "application/json".
Proof.
  intros Htok Hpre Hh Hb Hp.
  apply parse_some_state in Hp. destruct Hp as [c' [rest [Htok' Hfin]]].
  rewrite Htok in Htok'. injection Htok' as <- <-.
  apply finish_fields in Hfin.
  destruct Hfin as [Hhead [Hbody [_ [_ [Hj _]]]]].
  assert (Hst : scanArgs init_state (pre ++ "--json" :: a :: post)
                = scanArgs
                    (set_header "Accept" "application/json"
                       (set_header "Content-Type" "application/json"
                          (set_body a (scanArgs init_state pre)))) post).
  { rewrite scanArgs_app by assumption. reflexivity. }
  rewrite Hst in *. clear Hst.
  rewrite (scanArgs_keeps _ st_headers (fun t => negb (writes_headers t))
             handle_keeps_headers (List.length post)) in Hhead, Hj
    by (try assumption; lia).
  rewrite (scanArgs_keeps _ st_body (fun t => negb (sets_body t))
             handle_keeps_body (List.length post)) in Hbody
    by (try assumption; lia).
  simpl in Hhead, Hbody, Hj.
  assert (Hct : obj_get "Content-Type" (headers p) = Some "application/json").
  { rewrite Hhead. rewrite obj_get_set_other by discriminate.
    apply obj_get_set_same. discriminate. }
  assert (Hacc : obj_get "Accept" (headers p) = Some "application/json").
  { rewrite Hhead. apply obj_get_set_same. discriminate. }
  repeat split; try assumption.
  rewrite Hj. rewrite <- Hhead. unfold contentType. rewrite Hct. reflexivity.
Qed.

Lemma json_flag_forces_json_witness :
  exists p,
    parseCurl "curl https://a.test -H 'Content-Type: text/plain' --json plain -k"
    = Some p
    /\ isJson p = true
    /\ body p = Some "plain"
    /\ obj_get "Content-Type" (headers p) = Some "application/json"
    /\ obj_get "Accept" (headers p) = Some "application/json".
Proof.
  eexists. split; [vm_compute; reflexivity |].
  match goal with
  | |- isJson ?p = true /\ _ =>
      apply (json_flag_forces_json
               "curl https://a.test -H 'Content-Type: text/plain' --json plain -k"
               "curl" "plain"
               ["https://a.test"; "-H"; "Content-Type: text/plain"] ["-k"] p);
        reflexivity
  end.
Defined.

(** ** Form flags: the first value stays *)

Lemma scanArgs_guarded (P : pstate -> Prop) (Q : string -> bool) :
  (forall t arg st, Q t = true -> P st -> P (handle t arg st)) ->
  forall (n : nat) (toks : list string) (st : pstate),
    List.length toks <= n ->
    forallb Q toks = true -> P st -> P (scanArgs st toks).
Proof.
  intros Hstep. induction n as [| n IH]; intros toks st Hlen Hall HP.
  - destruct toks; [exact HP | simpl in Hlen; lia].
  - destruct toks as [| t rest]; [exact HP |].
    simpl in Hlen. simpl in Hall. apply andb_true_iff in Hall.
    destruct Hall as [Ht Hrest].
    rewrite scanArgs_cons. destruct (consumes_next t).
    + destruct rest as [| a rest'].
      * now apply Hstep.
      * simpl in Hrest. apply andb_true_iff in Hrest.
        apply IH; [simpl in Hlen; lia | tauto | now apply Hstep].
    + apply IH; [lia | assumption | now apply Hstep].
Qed.

Lemma handle_keeps_set_body (a : string) :
  a <> EmptyString ->
  forall (t : string) (arg : option string) (st : pstate),
    negb (is_one_of t data_flags || is_one_of t json_flags) = true ->
    st_body st = Some a -> st_body (handle t arg st) = Some a.
Proof.
  intros Ha t arg st Hq Hb. apply negb_true_iff, orb_false_iff in Hq.
  destruct Hq as [Hd Hj].
  destruct (is_one_of t form_flags) eqn:Ef.
  - rewrite handle_form by assumption. rewrite Hb. simpl.
    apply String.eqb_neq in Ha. now rewrite Ha.
  - rewrite handle_keeps_body; [exact Hb |].
    unfold sets_body. now rewrite Hd, Hj, Ef.
Qed.

(** The first form flag decides the body: when no token before it sets a
    body and its argument is not empty, the body is that argument, and
    every later form flag is consumed with its argument and ignored
    (as long as no data or json flag follows). *)
Theorem first_form_flag_wins
    (raw c f a : string) (pre post : list string) (p : ParsedCurl) :
  tokenizeCurl raw = c :: (pre ++ f :: a :: post)%list ->
  complete pre = true ->
  forallb (fun t => negb (sets_body t)) pre = true ->
  is_one_of f form_flags = true ->
  a <> EmptyString ->
  forallb (fun t => negb (is_one_of t data_flags || is_one_of t json_flags))
          post = true ->
  parseCurl raw = Some p ->
  body p = Some a.
Proof.
  intros Htok Hpre Hnone Hf Ha Hpost Hp.
  apply parse_some_state in Hp. destruct Hp as [c' [rest [Htok' Hfin]]].
  rewrite Htok in Htok'. injection Htok' as <- <-.
  apply finish_fields in Hfin. destruct Hfin as [_ [Hb _]]. rewrite Hb.
  rewrite scanArgs_app by assumption.
  assert (Hst : st_body (scanArgs init_state pre) = None).
  { rewrite (scanArgs_keeps _ st_body (fun t => negb (sets_body t))
               handle_keeps_body (List.length pre)) by (try assumption; lia).
    reflexivity. }
  rewrite (form_sets_absent_body _ f a post Hf Hst).
  apply (scanArgs_guarded (fun st => st_body st = Some a)
           (fun t => negb (is_one_of t data_flags || is_one_of t json_flags))
           (handle_keeps_set_body a Ha) (List.length post));
    [lia | assumption | reflexivity].
Qed.

Lemma first_form_flag_wins_witness :
  exists p,
    parseCurl "curl https://a.test -F name=a -F file=@b --form c=d" = Some p
    /\ body p = Some "name=a".
Proof.
  eexists. split; [vm_compute; reflexivity |].
  match goal with
  | |- body ?p = _ =>
      apply (first_form_flag_wins
               "curl https://a.test -F name=a -F file=@b --form c=d"
               "curl" "-F" "name=a"
               ["https://a.test"] ["-F"; "file=@b"; "--form"; "c=d"] p);
        try reflexivity
  end.
  discriminate.
Defined.

(** ** The body in the generated lines *)

Lemma forallb_map_all (A : Type) (f : string -> bool) (g : A -> string)
    (l : list A) :
  (forall e, f (g e) = true) -> forallb f (map g l) = true.
Proof.
  intros H. induction l as [| e l IH]; simpl; [reflexivity |].
  now rewrite H, IH.
Qed.

Lemma pushed_line_in_text (l : string) (ls : list string) :
  In l ls -> has_lines [l] (join lf ls).
Proof.
  intros H. apply in_split in H. destruct H as [pre [post ->]].
  now exists pre, post.
Qed.

(** With no body, no line that a generator pushes sets one: none opens
    with the body field of the fetch or axios options, none with a [data]
    or [payload] assignment in the python target, whose call line in the
    text has no body argument; the Go target pushes no body reader and no
    [strings] import, and its text builds the request with [nil]; the
    Node.js target never pushes the write of [postData].  The absence is
    stated of the pushed lines, the elements of [lines] that the generator
    joins: see [pushed_line_can_split] below. *)
Theorem absent_body_no_body_line
    (jr : nat -> string -> option string) (nu : string -> option URL)
    (p : ParsedCurl) :
  body p = None ->
  forallb (fun l => negb (startsWith "  body: " l))
          (generateJsFetch_lines jr p) = true
  /\ forallb (fun l => negb (startsWith "  data: " l))
             (generateJsAxios_lines jr p) = true
  /\ forallb (fun l => negb (startsWith "data = " l)
                       && negb (startsWith "payload = " l))
             (generatePythonRequests_lines jr p) = true
  /\ has_lines
       ["response = requests." ++ toLowerCase (method p) ++ "("
        ++ join ", "
             (["url"]
              +++ match Object_entries (headers p) with
                  | [] => []
                  | _ => ["headers=headers"]
                  end
              +++ match auth p with
                  | Some a =>
                      ["auth=(" ++ jsStringify (user a) ++ ", "
                         ++ jsStringify (password a) ++ ")"]
                  | None => []
                  end)
        ++ ")"]
       (generatePythonRequests jr p)
  /\ forallb (fun l => negb (startsWith (tab ++ "body := ") l)
                       && negb (l =? tab ++ dq ++ "strings" ++ dq))
             (generateGo_lines jr p) = true
  /\ has_lines
       [tab ++ "req, err := http.NewRequest(" ++ jsStringify (method p)
            ++ ", url, nil)"]
       (generateGo jr p)
  /\ forallb (fun l => negb (l =? "req.write(postData);"))
             (generateNodeJs_lines jr nu p) = true.
Proof.
  intros Hb. repeat split.
  - unfold generateJsFetch_lines, fetch_body_lines. rewrite Hb. cbv zeta.
    rewrite !forallb_app.
    destruct (negb (method p =? "GET"));
      destruct (Object_entries (headers p) +++ auth_entries (auth p)) eqn:E;
      rewrite ?forallb_app, ?forallb_map_all by (intros e; reflexivity);
      reflexivity.
  - unfold generateJsAxios_lines, axios_body_lines. rewrite Hb. cbv zeta.
    rewrite !forallb_app.
    destruct (auth p); destruct (Object_entries (headers p)) eqn:E;
      rewrite ?forallb_app, ?forallb_map_all by (intros e; reflexivity);
      reflexivity.
  - unfold generatePythonRequests_lines, python_body. rewrite Hb. cbv zeta.
    rewrite !forallb_app.
    destruct (Object_entries (headers p)) eqn:E;
      rewrite ?forallb_app, ?forallb_map_all by (intros e; reflexivity);
      reflexivity.
  - unfold generatePythonRequests. apply pushed_line_in_text.
    unfold generatePythonRequests_lines, python_body. rewrite Hb. cbv zeta.
    rewrite !in_app_iff. right. right. right. simpl snd.
    rewrite app_nil_r. simpl. tauto.
  - unfold generateGo_lines, go_request_lines. rewrite Hb. simpl truthy.
    cbv iota. rewrite !forallb_app.
    destruct (auth p);
      rewrite ?forallb_map_all by (intros e; reflexivity);
      reflexivity.
  - unfold generateGo. apply pushed_line_in_text.
    unfold generateGo_lines, go_request_lines. rewrite Hb. simpl truthy.
    cbv iota. rewrite !in_app_iff. right. right. right. left. now left.
  - unfold generateNodeJs_lines, node_postData_lines, node_write_lines,
      node_headers_block, node_header_entries, node_port_lines.
    rewrite Hb. simpl truthy. cbv iota.
    destruct (nu (url p)) as [u |]; [| reflexivity].
    rewrite !forallb_app.
    destruct (shows_port _ _);
      destruct (Object_entries (headers p) +++ [] +++ auth_entries (auth p))
        eqn:E;
      rewrite ?forallb_app, ?forallb_map_all
        by (intros e; unfold node_header_line;
            destruct (fst e =? "Content-Length"); reflexivity);
      reflexivity.
Qed.

Lemma absent_body_no_body_line_witness :
  forallb (fun l => negb (startsWith "  body: " l))
    (generateJsFetch_lines (fun _ _ => None)
       (mkParsed "https://a.test" "GET" [("body", "x")] None
          (Some (mkAuth "u" "p")) false false)) = true.
Proof.
  refine (proj1 (absent_body_no_body_line (fun _ _ => None) (fun _ => None)
    (mkParsed "https://a.test" "GET" [("body", "x")] None
       (Some (mkAuth "u" "p")) false false) _)).
  reflexivity.
Defined.

(** The python call line interpolates the method as it is: a line break in
    the method splits the pushed line in two lines of the text, and the
    second one may read like an assignment. *)
Example pushed_line_can_split :
  option_map (fun p => (body p, generatePythonRequests (fun _ _ => None) p))
    (parseCurl ("curl -X 'x" ++ lf ++ "data = 1' https://a.test"))
  = Some (None,
          join lf ["import requests"; EmptyString;
                   "url = " ++ jsStringify "https://a.test"; EmptyString;
                   "response = requests.x";
                   "data = 1(url)";
                   "print(response.json())"]).
Proof. reflexivity. Qed.




